(** * Duplicate detection and removal in [file_organizer.py]

    A shallow embedding of [FileOrganizer.find_duplicates], [_hash_file] and
    [remove_duplicates] (src/skills/file-organization/scripts/file_organizer.py)
    together with the parts of the Python runtime they rely on: [hashlib.md5],
    [pathlib.Path.rglob], [Path.is_file], [Path.stat], [open]/[read],
    [os.remove], [print], [dict]/[defaultdict(list)], [min]/[max] with a key.

    The tree is the one the scan observes and does not change during a
    call.  Permissions are part of it: a directory may refuse to be listed,
    to be searched, or both, and [is_file()], [is_dir()] and [rglob] raise
    [PermissionError] where [pathlib] does. *)

From Stdlib Require Import ZArith List String Ascii Lia Sorted.
From Stdlib.Strings Require Import Byte.
From stdpp Require Import base list strings gmap.
From Equations Require Import Equations.
Import ListNotations.
Local Open Scope Z_scope.
Set Warnings "-register-all".

(** ** MD5 (RFC 1321), the digest behind [hashlib.md5]

    32-bit words are [Z] values kept in range by [w32]. *)
Module MD5.

Definition w32 (x : Z) : Z := x mod 2 ^ 32.
Definition add32 (x y : Z) : Z := w32 (x + y).
Definition not32 (x : Z) : Z := Z.lxor x 0xffffffff.
Definition rotl32 (x c : Z) : Z :=
  Z.lor (w32 (Z.shiftl x c)) (Z.shiftr x (32 - c)).

(** Per-step left rotations. *)
Definition S : list Z :=
  [ 7; 12; 17; 22; 7; 12; 17; 22; 7; 12; 17; 22; 7; 12; 17; 22;
    5; 9; 14; 20; 5; 9; 14; 20; 5; 9; 14; 20; 5; 9; 14; 20;
    4; 11; 16; 23; 4; 11; 16; 23; 4; 11; 16; 23; 4; 11; 16; 23;
    6; 10; 15; 21; 6; 10; 15; 21; 6; 10; 15; 21; 6; 10; 15; 21 ].

(** [T[i] = floor (2^32 * |sin (i + 1)|)]. *)
Definition T : list Z :=
  [ 0xd76aa478; 0xe8c7b756; 0x242070db; 0xc1bdceee;
    0xf57c0faf; 0x4787c62a; 0xa8304613; 0xfd469501;
    0x698098d8; 0x8b44f7af; 0xffff5bb1; 0x895cd7be;
    0x6b901122; 0xfd987193; 0xa679438e; 0x49b40821;
    0xf61e2562; 0xc040b340; 0x265e5a51; 0xe9b6c7aa;
    0xd62f105d; 0x02441453; 0xd8a1e681; 0xe7d3fbc8;
    0x21e1cde6; 0xc33707d6; 0xf4d50d87; 0x455a14ed;
    0xa9e3e905; 0xfcefa3f8; 0x676f02d9; 0x8d2a4c8a;
    0xfffa3942; 0x8771f681; 0x6d9d6122; 0xfde5380c;
    0xa4beea44; 0x4bdecfa9; 0xf6bb4b60; 0xbebfbc70;
    0x289b7ec6; 0xeaa127fa; 0xd4ef3085; 0x04881d05;
    0xd9d4d039; 0xe6db99e5; 0x1fa27cf8; 0xc4ac5665;
    0xf4292244; 0x432aff97; 0xab9423a7; 0xfc93a039;
    0x655b59c3; 0x8f0ccc92; 0xffeff47d; 0x85845dd1;
    0x6fa87e4f; 0xfe2ce6e0; 0xa3014314; 0x4e0811a1;
    0xf7537e82; 0xbd3af235; 0x2ad7d2bb; 0xeb86d391 ].

Record state := St { sA : Z; sB : Z; sC : Z; sD : Z }.

Definition init : state :=
  St 0x67452301 0xefcdab89 0x98badcfe 0x10325476.

(** The auxiliary function of step [i] and the index of the message word. *)
Definition round_fn (i : Z) (b c d : Z) : Z * Z :=
  if i <? 16 then (Z.lor (Z.land b c) (Z.land (not32 b) d), i)
  else if i <? 32 then (Z.lor (Z.land d b) (Z.land (not32 d) c), (5 * i + 1) mod 16)
  else if i <? 48 then (Z.lxor b (Z.lxor c d), (3 * i + 5) mod 16)
  else (Z.lxor c (Z.lor b (not32 d)), (7 * i) mod 16).

Definition step (m : list Z) (st : state) (i : Z) : state :=
  let '(f, g) := round_fn i (sB st) (sC st) (sD st) in
  let n := Z.to_nat i in
  let f' := add32 (add32 (add32 f (sA st)) (nth n T 0)) (nth (Z.to_nat g) m 0) in
  St (sD st) (add32 (sB st) (rotl32 f' (nth n S 0))) (sB st) (sC st).

Fixpoint le_word (bs : list Z) : Z :=
  match bs with
  | [] => 0
  | b :: bs' => b + 256 * le_word bs'
  end.

Fixpoint le_bytes (n : nat) (x : Z) : list Z :=
  match n with
  | O => []
  | Datatypes.S n' => x mod 256 :: le_bytes n' (x / 256)
  end.

Fixpoint words (n : nat) (bs : list Z) : list Z :=
  match n with
  | O => []
  | Datatypes.S n' => le_word (firstn 4 bs) :: words n' (skipn 4 bs)
  end.

Definition compress (h : state) (block : list Z) : state :=
  let m := words 16 block in
  let r := fold_left (step m) (map Z.of_nat (seq 0 64)) h in
  St (add32 (sA h) (sA r)) (add32 (sB h) (sB r))
     (add32 (sC h) (sC r)) (add32 (sD h) (sD r)).

(** Padding: a [0x80] byte, zeros up to 56 mod 64, the bit length on 8 bytes. *)
Definition pad (msg : list Z) : list Z :=
  let len := Z.of_nat (length msg) in
  let zeros := Z.to_nat ((55 - len) mod 64) in
  msg ++ 0x80 :: repeat 0 zeros ++ le_bytes 8 ((8 * len) mod 2 ^ 64).

Fixpoint blocks (n : nat) (h : state) (bs : list Z) : state :=
  match n with
  | O => h
  | Datatypes.S n' => blocks n' (compress h (firstn 64 bs)) (skipn 64 bs)
  end.

Definition digest (data : list byte) : list Z :=
  let p := pad (map (fun b => Z.of_N (Byte.to_N b)) data) in
  let h := blocks (length p / 64) init p in
  le_bytes 4 (sA h) ++ le_bytes 4 (sB h) ++ le_bytes 4 (sC h) ++ le_bytes 4 (sD h).

Definition hex_digit (d : Z) : ascii :=
  nth (Z.to_nat d) (list_ascii_of_string "0123456789abcdef") "0"%char.

Fixpoint hex (bs : list Z) : string :=
  match bs with
  | [] => EmptyString
  | b :: bs' => String (hex_digit (b / 16)) (String (hex_digit (b mod 16)) (hex bs'))
  end.

(** [hashlib.md5(data).hexdigest()]. *)
Definition hexdigest (data : list byte) : string := hex (digest data).

(** A [hashlib.md5()] object: what it has absorbed so far.  [update] appends,
    [hexdigest] digests the concatenation of all updates. *)
Record hasher := Hasher { absorbed : list byte }.
Definition new : hasher := Hasher [].
Definition update (h : hasher) (chunk : list byte) : hasher :=
  Hasher (absorbed h ++ chunk).
Definition hasher_hexdigest (h : hasher) : string := hexdigest (absorbed h).

End MD5.

(** ** Results of fallible calls *)

(** The [OSError] family raised by [stat], [open], [read] and [os.remove];
    [PermissionError] and the other classes are all subclasses of [OSError],
    so every one of them is caught by [except (PermissionError, OSError)]. *)
Inductive OSError : Type :=
  | PermissionError
  | FileNotFoundError
  | IsADirectoryError
  | IOError.

(** The exceptions that leave the methods: those of [remove_duplicates],
    and an [OSError] raised where no [except] clause stands. *)
Inductive exn : Type :=
  | IndexError
  | ValueError (msg : string)
  | Os (e : OSError).

Inductive result (E A : Type) : Type :=
  | Ok (a : A)
  | Err (e : E).
Arguments Ok {E A} a.
Arguments Err {E A} e.

(** How a call ends: it returns a value or an exception propagates. *)
Inductive outcome (A : Type) : Type :=
  | Returned (a : A)
  | Raised (e : exn).
Arguments Returned {A} a.
Arguments Raised {A} e.

(** ** Insertion-ordered dictionaries

    A Python [dict] iterates in insertion order; it is an association list
    whose keys are kept unique by the operations below. *)
Definition dict (K V : Type) : Type := list (K * V).

(** [d[k].append(v)] on a [defaultdict(list)]: an existing key keeps its
    position and gets [v] at the end of its list, a new key goes last. *)
Fixpoint dd_append {K V : Type} `{EqDecision K}
    (k : K) (v : V) (d : dict K (list V)) : dict K (list V) :=
  match d with
  | [] => [(k, [v])]
  | (k', vs) :: d' =>
      if decide (k = k') then (k', vs ++ [v]) :: d'
      else (k', vs) :: dd_append k v d'
  end.

(** [v] is listed under key [k]. *)
Definition dmem {K V : Type} (k : K) (v : V) (d : dict K (list V)) : Prop :=
  exists vs, (k, vs) ∈ d /\ v ∈ vs.

(** ** The file system as the scan observes it *)

(** A node of the tree.  A regular file carries what [stat().st_size] and
    what [open(..., 'rb')] followed by the reads answer when the scan gets to
    them: two separate observations, each of which may fail.  The [stat] of
    line 56 is a second call after the one inside [is_file()]; it fails only
    when the file has changed in between (removed: [FileNotFoundError]).  A
    file without read permission has a size and refuses [open].

    A directory carries its listing, [None] when listing it is refused
    ([PermissionError], which [rglob] swallows) and nothing in it can be
    reached.  [SearchOnly] is a directory with search permission and without
    read permission: it cannot be listed, but a path that names one of its
    entries reaches it.  A symbolic link carries the node it resolves to,
    [None] when it dangles.

    [Denied] is an entry whose status cannot be read ([stat] answers
    [EACCES]): any entry of a directory that has read permission and no
    search permission.  The listing of that directory shows it, with its
    type, but [stat], [is_file()], [is_dir()] and [open] on it are refused. *)
Inductive node : Type :=
  | Regular (st_size : result OSError Z) (data : result OSError (list byte))
  | Directory (listing : option (list (string * node)))
  | SearchOnly (hidden : list (string * node))
  | Symlink (target : option node)
  | Special
  | Denied.

(** Following symbolic links, as [stat] and [open] do. *)
Fixpoint follow (n : node) : option node :=
  match n with
  | Symlink (Some t) => follow t
  | Symlink None => None
  | _ => Some n
  end.

(** [Path.is_file()]: "True for a regular file, also for symlinks pointing to
    regular files"; false for what does not exist.  It calls [stat] and
    passes over the errors that say the path names nothing ([ENOENT],
    [ENOTDIR], [EBADF], [ELOOP]); any other [OSError], so a refused [stat],
    is raised again. *)
Definition is_file (n : node) : result OSError bool :=
  match follow n with
  | Some (Regular _ _) => Ok true
  | Some Denied => Err PermissionError
  | _ => Ok false
  end.

(** [Path.stat().st_size].  The scan calls it only on nodes for which
    [is_file()] holds, where it answers with the size observed for the
    file; the sizes of the other kinds of node are not modelled. *)
Definition stat_st_size (n : node) : result OSError Z :=
  match follow n with
  | Some (Regular size _) => size
  | Some Denied => Err PermissionError
  | Some _ => Err IOError
  | None => Err FileNotFoundError
  end.

(** The bytes [open(path, 'rb')] and reading to the end deliver. *)
Definition open_rb (n : node) : result OSError (list byte) :=
  match follow n with
  | Some (Regular _ data) => data
  | Some (Directory _) => Err IsADirectoryError
  | Some (SearchOnly _) => Err IsADirectoryError
  | Some Denied => Err PermissionError
  | Some _ => Err IOError
  | None => Err FileNotFoundError
  end.

(** [str(parent / name)]. *)
Definition joinpath (parent name : string) : string :=
  if String.eqb parent "." then name
  else if String.eqb parent "/" then "/" +:+ name
  else parent +:+ "/" +:+ name.

(** A path yielded by [rglob], with the node it names. *)
Definition entry : Type := string * node.

(** [Path(dir).rglob('*')] below directory node [n]: the entries of the
    directory, then, for each real sub-directory in turn, its own [rglob].
    Links to directories are yielded and not entered; a directory that
    cannot be listed contributes nothing; what is not a directory yields
    nothing.  The entries are taken from the listing, which tells their
    type, without a [stat]: an entry whose status cannot be read is yielded
    like any other, and nothing below it is. *)
Fixpoint rglob (dir : string) (n : node) : list entry :=
  match n with
  | Directory (Some children) =>
      map (fun c : string * node => (joinpath dir (fst c), snd c)) children
      ++ flat_map (fun c : string * node =>
                     match snd c with
                     | Directory _ => rglob (joinpath dir (fst c)) (snd c)
                     | _ => []
                     end) children
  | _ => []
  end.

(** [rglob] from the root.  Before anything is yielded [rglob] asks
    [is_dir()] of the root, which follows links: a root whose status cannot
    be read raises [PermissionError]; a root that does not exist or is not a
    directory yields nothing. *)
Definition rglob_root (dir : string) (root : option node)
    : result OSError (list entry) :=
  match root with
  | Some r =>
      match follow r with
      | Some (Directory l) => Ok (rglob dir (Directory l))
      | Some Denied => Err PermissionError
      | _ => Ok []
      end
  | None => Ok []
  end.

(** ** The scanner *)

Record FileOrganizer := { base_path : string }.

(** [f.read(chunk_size)] on an open file: the next chunk and what is left. *)
Definition read (chunk_size : nat) (f : list byte) : list byte * list byte :=
  (firstn chunk_size f, skipn chunk_size f).

(** A value together with the equation that names it, so that the loop below
    keeps [chunk = firstn chunk_size f] for its termination argument. *)
Definition inspect {A : Type} (a : A) : {b : A | a = b} := exist _ a eq_refl.

(** [while chunk := f.read(chunk_size): hasher.update(chunk)]
    (lines 83-84).  An empty chunk ends the loop; a non-empty one shortens
    what is left of the file. *)
Equations? hash_loop (chunk_size : nat) (f : list byte) (hasher : MD5.hasher)
    : MD5.hasher by wf (length f) lt :=
  hash_loop chunk_size f hasher with inspect (read chunk_size f) => {
    | exist _ ([], _) _ := hasher;
    | exist _ (b :: chunk, rest) Hread :=
        hash_loop chunk_size rest (MD5.update hasher (b :: chunk)) }.
Proof.
  destruct chunk_size as [|k]; [discriminate|].
  destruct f as [|x f]; [discriminate|].
  rewrite length_skipn. simpl. lia.
Qed.

Definition chunk_size_default : nat := Z.to_nat 8192.

(** [_hash_file] (lines 79-85): an [OSError] of [open] or [read] propagates. *)
Definition _hash_file (file_path : node) (chunk_size : nat) : result OSError string :=
  match open_rb file_path with
  | Err e => Err e
  | Ok f => Ok (MD5.hasher_hexdigest (hash_loop chunk_size f MD5.new))
  end.

(** A [for] loop whose body may raise: the first exception ends it. *)
Fixpoint for_each {E A S : Type} (body : S -> A -> result E S)
    (items : list A) (s : S) : result E S :=
  match items with
  | [] => Ok s
  | x :: rest =>
      match body s x with
      | Ok s' => for_each body rest s'
      | Err e => Err e
      end
  end.

(** What a body does to the state when it does not raise. *)
Definition quiet {E A S : Type} (body : S -> A -> result E S) (s : S) (x : A) : S :=
  match body s x with
  | Ok s' => s'
  | Err _ => s
  end.

(** Body of the first loop (lines 54-60).  [is_file()] stands outside the
    [try]: what it raises leaves the loop; what [stat] raises is caught. *)
Definition size_step (min_size : Z) (size_map : dict Z (list entry))
    (file_path : entry) : result OSError (dict Z (list entry)) :=
  match is_file (snd file_path) with
  | Err e => Err e
  | Ok true =>
      match stat_st_size (snd file_path) with
      | Ok size =>
          Ok (if min_size <=? size then dd_append size file_path size_map
              else size_map)
      | Err _ => Ok size_map
      end
  | Ok false => Ok size_map
  end.

(** Body of the inner hashing loop (lines 68-72). *)
Definition hash_step (hash_map : dict string (list string))
    (file_path : entry) : dict string (list string) :=
  match _hash_file (snd file_path) chunk_size_default with
  | Ok file_hash => dd_append file_hash (fst file_path) hash_map
  | Err _ => hash_map
  end.

(** Body of the loop over [size_map.items()] (lines 65-72). *)
Definition bucket_step (hash_map : dict string (list string))
    (item : Z * list entry) : dict string (list string) :=
  if (1 <? length (snd item))%nat then fold_left hash_step (snd item) hash_map
  else hash_map.

(** [Path(directory or self.base_path)] (line 48): [None] and the empty
    string are falsy. *)
Definition scan_root (self : FileOrganizer) (directory : option string) : string :=
  match directory with
  | Some d => if String.eqb d "" then base_path self else d
  | None => base_path self
  end.

(** What [directory.rglob('*')] yields, nothing when it raises; [fs] tells
    which node a path names. *)
Definition walk (self : FileOrganizer) (fs : string -> option node)
    (directory : option string) : list entry :=
  match rglob_root (scan_root self directory) (fs (scan_root self directory)) with
  | Ok entries => entries
  | Err _ => []
  end.

(** The first loop (lines 53-60). *)
Definition size_pass (min_size : Z) (entries : list entry)
    : result OSError (dict Z (list entry)) :=
  for_each (size_step min_size) entries [].

(** The [size_map] of a first loop that ends without an exception. *)
Definition size_map_of (min_size : Z) (entries : list entry) : dict Z (list entry) :=
  fold_left (quiet (size_step min_size)) entries [].

Definition hash_pass (size_map : dict Z (list entry)) : dict string (list string) :=
  fold_left bucket_step size_map [].

(** [find_duplicates] (lines 37-77).  An [OSError] of [rglob] or of
    [is_file()] in the first loop is not caught. *)
Definition find_duplicates (self : FileOrganizer) (fs : string -> option node)
    (directory : option string) (min_size : Z)
    : outcome (dict string (list string)) :=
  match rglob_root (scan_root self directory) (fs (scan_root self directory)) with
  | Err e => Raised (Os e)
  | Ok entries =>
      match size_pass min_size entries with
      | Err e => Raised (Os e)
      | Ok size_map =>
          let hash_map := hash_pass size_map in
          Returned (List.filter (fun item => (1 <? length (snd item))%nat) hash_map)
      end
  end.

(** ** The resolver *)

(** A call of [print]: the failure line of line 121. *)
Inductive printed : Type :=
  | Failed_to_delete (path : string) (e : OSError).

Definition strerror (e : OSError) (path : string) : string :=
  match e with
  | PermissionError => "[Errno 13] Permission denied: '" +:+ path +:+ "'"
  | FileNotFoundError => "[Errno 2] No such file or directory: '" +:+ path +:+ "'"
  | IsADirectoryError => "[Errno 21] Is a directory: '" +:+ path +:+ "'"
  | IOError => "[Errno 5] Input/output error: '" +:+ path +:+ "'"
  end.

(** The text that reaches standard output. *)
Definition render (l : printed) : string :=
  match l with
  | Failed_to_delete path e => "Failed to delete " +:+ path +:+ ": " +:+ strerror e path
  end.

(** The files that exist, and [protected], the paths whose removal the
    system refuses. *)
Record filesystem := FS {
  files : gset string;
  protected : gset string }.

(** What [remove_duplicates] can change: the disk and standard output. *)
Record world := World {
  disk : filesystem;
  stdout : list printed }.

(** The [unlink] system call behind [os.remove]. *)
Definition unlink (path : string) (d : filesystem) : result OSError filesystem :=
  if decide (path ∈ files d) then
    if decide (path ∈ protected d) then Err PermissionError
    else Ok (FS (files d ∖ {[path]}) (protected d))
  else Err FileNotFoundError.

(** [os.remove(path)]. *)
Definition os_remove (path : string) (w : world) : result OSError world :=
  match unlink path (disk w) with
  | Ok d => Ok (World d (stdout w))
  | Err e => Err e
  end.

Definition print (l : printed) (w : world) : world :=
  World (disk w) (stdout w ++ [l]).

(** [min(paths, key=len)] after the first element: a later element replaces
    the best one only when its key is strictly smaller. *)
Fixpoint min_from (best : string) (paths : list string) : string :=
  match paths with
  | [] => best
  | p :: rest =>
      min_from (if (String.length p <? String.length best)%nat then p else best) rest
  end.

(** [max(paths, key=len)], likewise with strictly greater. *)
Fixpoint max_from (best : string) (paths : list string) : string :=
  match paths with
  | [] => best
  | p :: rest =>
      max_from (if (String.length best <? String.length p)%nat then p else best) rest
  end.

(** "Decide which to keep" (lines 103-112). *)
Definition select_keep (keep : string) (paths : list string) : outcome string :=
  if String.eqb keep "first" then
    match paths with
    | p :: _ => Returned p
    | [] => Raised IndexError
    end
  else if String.eqb keep "last" then
    match last paths with
    | Some p => Returned p
    | None => Raised IndexError
    end
  else if String.eqb keep "shortest_path" then
    match paths with
    | p :: rest => Returned (min_from p rest)
    | [] => Raised (ValueError "min() arg is an empty sequence")
    end
  else if String.eqb keep "longest_path" then
    match paths with
    | p :: rest => Returned (max_from p rest)
    | [] => Raised (ValueError "max() arg is an empty sequence")
    end
  else Raised (ValueError ("Invalid keep strategy: " +:+ keep)).

(** "Delete the rest" (lines 115-123) for one group. *)
Fixpoint delete_rest (dry_run : bool) (to_keep : string) (paths : list string)
    (w : world) (deleted : list string) : world * list string :=
  match paths with
  | [] => (w, deleted)
  | path :: rest =>
      if decide (path = to_keep) then delete_rest dry_run to_keep rest w deleted
      else if dry_run then delete_rest dry_run to_keep rest w (deleted ++ [path])
      else
        match os_remove path w with
        | Ok w' => delete_rest dry_run to_keep rest w' (deleted ++ [path])
        | Err e =>
            delete_rest dry_run to_keep rest (print (Failed_to_delete path e) w) deleted
        end
  end.

(** The loop over [duplicates.items()] (lines 101-123).  An exception leaves
    the world as the groups before it made it. *)
Fixpoint groups_loop (keep : string) (dry_run : bool)
    (items : dict string (list string)) (w : world) (deleted : list string)
    : world * outcome (list string) :=
  match items with
  | [] => (w, Returned deleted)
  | (file_hash, paths) :: rest =>
      match select_keep keep paths with
      | Raised e => (w, Raised e)
      | Returned to_keep =>
          let '(w', deleted') := delete_rest dry_run to_keep paths w deleted in
          groups_loop keep dry_run rest w' deleted'
      end
  end.

(** [remove_duplicates] (lines 87-125) with all arguments given. *)
Definition remove_duplicates (duplicates : dict string (list string))
    (keep : string) (dry_run : bool) (w : world) : world * outcome (list string) :=
  groups_loop keep dry_run duplicates w [].

(** The defaults of the signature: [keep='first', dry_run=True]. *)
Definition keep_default : string := "first".
Definition dry_run_default : bool := true.

(** A call that may leave [keep] and [dry_run] out. *)
Definition remove_duplicates_call (duplicates : dict string (list string))
    (keep : option string) (dry_run : option bool) (w : world)
    : world * outcome (list string) :=
  remove_duplicates duplicates (default keep_default keep)
    (default dry_run_default dry_run) w.

(** ** The resolver as the specification words it *)

Definition policies : list string :=
  ["first"; "last"; "shortest_path"; "longest_path"].

(** "All other paths in the group are candidates for deletion." *)
Definition candidates (to_keep : string) (paths : list string) : list string :=
  filter (fun p => p <> to_keep) paths.

(** The candidates of every group, in order; the exception of the first
    group for which no keep path can be selected. *)
Fixpoint would_delete_all (keep : string) (groups : dict string (list string))
    : outcome (list string) :=
  match groups with
  | [] => Returned []
  | (_, paths) :: rest =>
      match select_keep keep paths with
      | Raised e => Raised e
      | Returned to_keep =>
          match would_delete_all keep rest with
          | Returned l => Returned (candidates to_keep paths ++ l)
          | Raised e => Raised e
          end
      end
  end.

Inductive Outcome : Type :=
  | deleted
  | failed (reason : OSError)
  | would_delete.

Definition DeletionRecord : Type := string * Outcome.

(** "Attempt to remove each candidate file.  On success emit [deleted]; on
    failure emit [failed: <reason>] and continue to the next candidate." *)
Fixpoint attempt (cands : list string) (d : filesystem)
    : filesystem * list DeletionRecord :=
  match cands with
  | [] => (d, [])
  | c :: rest =>
      match unlink c d with
      | Ok d' => let '(d'', rs) := attempt rest d' in (d'', (c, deleted) :: rs)
      | Err e => let '(d'', rs) := attempt rest d in (d'', (c, failed e) :: rs)
      end
  end.

(** The paths of the records marked [deleted]. *)
Fixpoint deleted_paths (rs : list DeletionRecord) : list string :=
  match rs with
  | [] => []
  | (p, deleted) :: rs' => p :: deleted_paths rs'
  | _ :: rs' => deleted_paths rs'
  end.

(** The lines printed for the records marked [failed]. *)
Fixpoint failure_lines (rs : list DeletionRecord) : list printed :=
  match rs with
  | [] => []
  | (p, failed e) :: rs' => Failed_to_delete p e :: failure_lines rs'
  | _ :: rs' => failure_lines rs'
  end.

(** ** The statements of the specification that the code does not meet

    Each is a predicate on one call, refuted further down at a concrete
    input and followed by the statement that does hold. *)

(** What a path names is unusable as a scan root: it does not exist, it is
    not a directory, its status cannot be read, or listing it is refused. *)
Definition root_unusable (root : option node) : Prop :=
  match root with
  | Some r =>
      match follow r with
      | Some (Directory (Some _)) => False
      | _ => True
      end
  | None => True
  end.

(** The status of the root cannot be read: the root, or what a link at the
    root resolves to, lies in a directory without search permission. *)
Definition stat_refused (root : option node) : bool :=
  match root with
  | Some r =>
      match follow r with
      | Some Denied => true
      | _ => false
      end
  | None => false
  end.


(** "All members of a group have byte-identical content." *)
Definition byte_identical_groups (self : FileOrganizer)
    (fs : string -> option node) (directory : option string) (min_size : Z) : Prop :=
  forall r h paths, find_duplicates self fs directory min_size = Returned r ->
    (h, paths) ∈ r ->
    (2 <= length paths)%nat /\
    forall p q np nq cp cq, p ∈ paths -> q ∈ paths ->
      (p, np) ∈ walk self fs directory -> (q, nq) ∈ walk self fs directory ->
      open_rb np = Ok cp -> open_rb nq = Ok cq -> cp = cq.


(** "No group contains two files of different byte size." *)
Definition one_size_per_group (self : FileOrganizer)
    (fs : string -> option node) (directory : option string) (min_size : Z) : Prop :=
  forall r h paths p q np nq sp sq,
    find_duplicates self fs directory min_size = Returned r ->
    (h, paths) ∈ r -> p ∈ paths -> q ∈ paths ->
    (p, np) ∈ walk self fs directory -> (q, nq) ∈ walk self fs directory ->
    stat_st_size np = Ok sp -> stat_st_size nq = Ok sq -> sp = sq.



(** "An unrecognized keep value fails with an error." *)
Definition fails_on_invalid_keep (duplicates : dict string (list string))
    (keep : string) (dry_run : bool) (w : world) : Prop :=
  keep ∉ policies ->
  exists e, snd (remove_duplicates duplicates keep dry_run w) = Raised e.

(** Hypotheses under which sizes and contents can be related. *)

(** Every walked file delivers as many bytes as [stat] announced. *)
Definition sizes_match_contents (entries : list entry) : Prop :=
  forall p n size c, (p, n) ∈ entries ->
    stat_st_size n = Ok size -> open_rb n = Ok c -> Z.of_nat (length c) = size.

(** MD5 does not collide on the contents of the walked files. *)
Definition collision_free (entries : list entry) : Prop :=
  forall p1 n1 c1 p2 n2 c2, (p1, n1) ∈ entries -> (p2, n2) ∈ entries ->
    open_rb n1 = Ok c1 -> open_rb n2 = Ok c2 ->
    MD5.hexdigest c1 = MD5.hexdigest c2 -> c1 = c2.

(** [is_file()] answers that the entry is a file. *)
Definition a_file (n : node) : bool :=
  match is_file n with
  | Ok true => true
  | _ => false
  end.

(** The exception of the first entry for which a test such as [is_file()]
    raises. *)
Fixpoint first_raise (test : node -> result OSError bool) (entries : list entry)
    : option OSError :=
  match entries with
  | [] => None
  | e :: rest =>
      match test (snd e) with
      | Err err => Some err
      | Ok _ => first_raise test rest
      end
  end.


(** The entries of a bucket that can be opened and read. *)
Definition readable (e : entry) : bool :=
  match open_rb (snd e) with
  | Ok _ => true
  | Err _ => false
  end.

(** ** Concrete inputs *)

(** [bytes.fromhex]. *)
Definition unhex_digit (c : ascii) : N :=
  let n := N_of_ascii c in
  if ((48 <=? n) && (n <=? 57))%N then (n - 48)%N else (n - 87)%N.

Fixpoint fromhex (s : string) : list byte :=
  match s with
  | String a (String b s') =>
      match Byte.of_N (16 * unhex_digit a + unhex_digit b)%N with
      | Some x => x :: fromhex s'
      | None => fromhex s'
      end
  | _ => []
  end.

(** The two 128-byte messages of Wang and Yu (2004) with one MD5 digest;
    they differ in six bytes. *)
Definition collision_a : list byte := fromhex
  ("d131dd02c5e6eec4693d9a0698aff95c2fcab58712467eab4004583eb8fb7f89" +:+
   "55ad340609f4b30283e488832571415a085125e8f7cdc99fd91dbdf280373c5b" +:+
   "d8823e3156348f5bae6dacd436c919c6dd53e2b487da03fd02396306d248cda0" +:+
   "e99f33420f577ee8ce54b67080a80d1ec69821bcb6a8839396f9652b6ff72a70").

Definition collision_b : list byte := fromhex
  ("d131dd02c5e6eec4693d9a0698aff95c2fcab50712467eab4004583eb8fb7f89" +:+
   "55ad340609f4b30283e4888325f1415a085125e8f7cdc99fd91dbd7280373c5b" +:+
   "d8823e3156348f5bae6dacd436c919c6dd53e23487da03fd02396306d248cda0" +:+
   "e99f33420f577ee8ce54b67080280d1ec69821bcb6a8839396f965ab6ff72a70").

Definition organizer : FileOrganizer := {| base_path := "/data" |}.

(** A file system with one tree, at [root]. *)
Definition mount (root : string) (tree : node) (p : string) : option node :=
  if String.eqb p root then Some tree else None.

(** A regular file in a quiet tree: [stat] reports the length of the data. *)
Definition file (content : string) : node :=
  Regular (Ok (Z.of_nat (String.length content))) (Ok (list_byte_of_string content)).

Definition collision_tree : node :=
  Directory (Some [ ("a.bin", Regular (Ok 128) (Ok collision_a));
                    ("b.bin", Regular (Ok 128) (Ok collision_b)) ]).


(** Files whose [st_size] is not the number of bytes a read delivers: the
    attribute files of sysfs announce 4096 bytes; a file rewritten between
    the two passes of the scan does the same. *)
Definition stale_tree : node :=
  Directory (Some [ ("enabled", Regular (Ok 4096) (Ok (list_byte_of_string "on")));
                    ("defrag", Regular (Ok 4096) (Ok (list_byte_of_string "on")));
                    ("a.txt", file "on");
                    ("b.txt", file "on") ]).

(** [locked] has no read permission; [private] cannot be listed. *)
Definition sample_tree : node :=
  Directory (Some [ ("a.txt", file "hello");
                    ("sub", Directory (Some [ ("copy.txt", file "hello");
                                              ("other.txt", file "world") ]));
                    ("tiny", file "hi");
                    ("locked", Regular (Ok 5) (Err PermissionError));
                    ("private", Directory None) ]).


(** [inbox] has read permission and no search permission: its entry is
    listed and its status cannot be read. *)
Definition listonly_tree : node :=
  Directory (Some [ ("a.txt", file "hello");
                    ("inbox", Directory (Some [ ("mail.txt", Denied) ]));
                    ("copy.txt", file "hello") ]).

Definition hello_digest : string := "5d41402abc4b2a76b9719d911017c592".
Definition world_digest : string := "7d793037a0760186574b0282f2f435e7".

(** What the scan of [sample_tree] with [min_size = 3] returns. *)
Definition sample_result : dict string (list string) :=
  [(hello_digest, ["/data/a.txt"; "/data/sub/copy.txt"])].

Definition hello_paths : list string :=
  ["/data/a.txt"; "/data/sub/copy.txt"; "/data/old/a.txt"; "/data/gone.txt"].
Definition world_paths : list string :=
  ["/data/w.txt"; "/data/backup/w.txt"].

Definition sample_groups : dict string (list string) :=
  [(hello_digest, hello_paths); (world_digest, world_paths)].

(** [/data/gone.txt] does not exist; [/data/old/a.txt] cannot be removed. *)
Definition sample_world : world :=
  World (FS {[ "/data/a.txt"; "/data/sub/copy.txt"; "/data/old/a.txt";
               "/data/w.txt"; "/data/backup/w.txt" ]}
            {[ "/data/old/a.txt" ]}) [].

(** [sample_world] after a real run over the first group that keeps the
    longest path. *)
Definition world_after_hello : world :=
  World (FS {[ "/data/sub/copy.txt"; "/data/old/a.txt";
               "/data/w.txt"; "/data/backup/w.txt" ]}
            {[ "/data/old/a.txt" ]})
        [ Failed_to_delete "/data/old/a.txt" PermissionError;
          Failed_to_delete "/data/gone.txt" FileNotFoundError ].




(** The candidates of [sample_groups] when the first path is kept. *)
Definition sample_candidates : list string :=
  ["/data/sub/copy.txt"; "/data/old/a.txt"; "/data/gone.txt"; "/data/backup/w.txt"].

(** * The rest of [FileOrganizer]

    [_get_category], [find_empty_dirs], [remove_empty_dirs],
    [find_temp_files], [remove_temp_files], [analyze_disk_usage] and
    [organize_by_type], with [Path.is_dir], [Path.iterdir], [PurePath.suffix],
    [str.lower], [fnmatch], [os.rmdir], [list.sort], slices, [shutil.move] and
    [Path.mkdir]. *)

(** The entries that the first loop of [find_duplicates] files under a size. *)
Definition sized (min_size : Z) (e : entry) : bool :=
  a_file (snd e) &&
  match stat_st_size (snd e) with
  | Ok size => min_size <=? size
  | Err _ => false
  end.

(** The entries of the buckets that get hashed. *)
Fixpoint hashed (size_map : dict Z (list entry)) : list entry :=
  match size_map with
  | [] => []
  | (_, files) :: rest =>
      (if (1 <? length files)%nat then files else []) ++ hashed rest
  end.


(** ** File categories *)

(** The class attribute [FILE_CATEGORIES] (lines 17-30), in insertion order. *)
Definition FILE_CATEGORIES : dict string (list string) :=
  [ ("documents", [".pdf"; ".doc"; ".docx"; ".txt"; ".odt"; ".rtf"; ".tex"]);
    ("spreadsheets", [".xls"; ".xlsx"; ".csv"; ".ods"]);
    ("presentations", [".ppt"; ".pptx"; ".key"; ".odp"]);
    ("images", [".jpg"; ".jpeg"; ".png"; ".gif"; ".bmp"; ".svg"; ".webp"; ".ico"]);
    ("videos", [".mp4"; ".avi"; ".mkv"; ".mov"; ".wmv"; ".flv"; ".webm"]);
    ("audio", [".mp3"; ".wav"; ".flac"; ".aac"; ".ogg"; ".wma"; ".m4a"]);
    ("archives", [".zip"; ".rar"; ".7z"; ".tar"; ".gz"; ".bz2"]);
    ("code", [".py"; ".js"; ".java"; ".cpp"; ".c"; ".h"; ".cs"; ".php"; ".rb"; ".go"; ".rs"]);
    ("web", [".html"; ".css"; ".scss"; ".sass"; ".less"]);
    ("data", [".json"; ".xml"; ".yaml"; ".yml"; ".toml"; ".ini"; ".cfg"]);
    ("executables", [".exe"; ".msi"; ".app"; ".dmg"; ".deb"; ".rpm"]);
    ("fonts", [".ttf"; ".otf"; ".woff"; ".woff2"]) ].

(** [extension in extensions]. *)
Definition str_in (x : string) (l : list string) : bool := existsb (String.eqb x) l.

(** The loop of [_get_category] over the items of a table. *)
Fixpoint category_in (items : dict string (list string)) (extension : string) : string :=
  match items with
  | [] => "other"
  | (category, extensions) :: rest =>
      if str_in extension extensions then category else category_in rest extension
  end.

(** [_get_category] (lines 196-201). *)
Definition _get_category (extension : string) : string :=
  category_in FILE_CATEGORIES extension.

(** The values of a dictionary of lists, in order. *)
Fixpoint listed {K V : Type} (d : dict K (list V)) : list V :=
  match d with
  | [] => []
  | (_, vs) :: d' => vs ++ listed d'
  end.

(** ** Names *)

(** [str.lower()] on ASCII text: the letters [A]-[Z] are mapped to [a]-[z]. *)
Definition lower_char (c : ascii) : ascii :=
  let n := nat_of_ascii c in
  if ((65 <=? n) && (n <=? 90))%nat then ascii_of_nat (n + 32) else c.

Fixpoint lower (s : string) : string :=
  match s with
  | EmptyString => EmptyString
  | String c s' => String (lower_char c) (lower s')
  end.

(** [name.rfind('.')]: the index of the last dot. *)
Fixpoint rfind_dot (name : string) : option nat :=
  match name with
  | EmptyString => None
  | String c name' =>
      match rfind_dot name' with
      | Some i => Some (S i)
      | None => if Ascii.eqb c "." then Some O else None
      end
  end.

(** [PurePath.suffix]: [name[i:]] when [0 < i < len(name) - 1] for the last
    dot [i], the empty string otherwise. *)
Definition suffix (name : string) : string :=
  match rfind_dot name with
  | Some i =>
      if ((0 <? i) && (i <? String.length name - 1))%nat
      then String.substring i (String.length name - i) name
      else ""
  | None => ""
  end.

(** ** Directories *)

(** [Path.is_dir()]: true for a directory and for a link to one.  Like
    [is_file()] it raises again what a refused [stat] raises. *)
Definition is_dir (n : node) : result OSError bool :=
  match follow n with
  | Some (Directory _) => Ok true
  | Some (SearchOnly _) => Ok true
  | Some Denied => Err PermissionError
  | _ => Ok false
  end.

(** [Path.iterdir()], which lists through links.  [find_empty_dirs] calls
    it only on nodes for which [is_dir()] holds. *)
Definition iterdir (n : node) : result OSError (list (string * node)) :=
  match follow n with
  | Some (Directory (Some children)) => Ok children
  | Some (Directory None) => Err PermissionError
  | Some (SearchOnly _) => Err PermissionError
  | Some Denied => Err PermissionError
  | Some _ => Err IOError
  | None => Err FileNotFoundError
  end.

(** [any(paths)]: a [Path] object is always true. *)
Definition any_path (paths : list (string * node)) : bool :=
  match paths with
  | [] => false
  | _ :: _ => true
  end.

(** Body of the loop of [find_empty_dirs] (lines 211-216).  [is_dir()]
    stands outside the [try]. *)
Definition empty_step (empty_dirs : list string) (dir_path : entry)
    : result OSError (list string) :=
  match is_dir (snd dir_path) with
  | Err e => Err e
  | Ok true =>
      match iterdir (snd dir_path) with
      | Ok children =>
          Ok (if negb (any_path children) then empty_dirs ++ [fst dir_path]
              else empty_dirs)
      | Err _ => Ok empty_dirs
      end
  | Ok false => Ok empty_dirs
  end.

(** [find_empty_dirs] (lines 205-218). *)
Definition find_empty_dirs (self : FileOrganizer) (fs : string -> option node)
    (directory : option string) : outcome (list string) :=
  match rglob_root (scan_root self directory) (fs (scan_root self directory)) with
  | Err e => Raised (Os e)
  | Ok entries =>
      match for_each empty_step entries [] with
      | Err e => Raised (Os e)
      | Ok empty_dirs => Returned empty_dirs
      end
  end.

(** The directories that exist, and [refusing], those the system does not
    let go (not empty any more, in use, not permitted). *)
Record dirtable := Dirs {
  dirs : gset string;
  refusing : gset string }.

(** [os.rmdir(path)]. *)
Definition os_rmdir (path : string) (d : dirtable) : result OSError dirtable :=
  if decide (path ∈ dirs d) then
    if decide (path ∈ refusing d) then Err PermissionError
    else Ok (Dirs (dirs d ∖ {[path]}) (refusing d))
  else Err FileNotFoundError.

(** [try: os.rmdir(dir_path) except (PermissionError, OSError): pass]. *)
Definition rmdir_quietly (d : dirtable) (dir_path : string) : dirtable :=
  match os_rmdir dir_path d with
  | Ok d' => d'
  | Err _ => d
  end.

(** [remove_empty_dirs] (lines 220-231): what [find_empty_dirs] raises
    leaves the call before anything is removed. *)
Definition remove_empty_dirs (self : FileOrganizer) (fs : string -> option node)
    (directory : option string) (dry_run : bool) (d : dirtable)
    : dirtable * outcome (list string) :=
  match find_empty_dirs self fs directory with
  | Raised e => (d, Raised e)
  | Returned empty_dirs =>
      (if dry_run then d else fold_left rmdir_quietly empty_dirs d,
       Returned empty_dirs)
  end.

(** ** Temporary files *)

(** [fnmatch] on one name, as [rglob(pattern)] applies it to the names of a
    directory: [*] stands for any run of characters, [?] for one character,
    any other character for itself.  (No pattern of the code has a bracket
    expression.) *)
Fixpoint fnmatch (pattern name : string) : bool :=
  match pattern with
  | EmptyString =>
      match name with
      | EmptyString => true
      | String _ _ => false
      end
  | String c pattern' =>
      if Ascii.eqb c "*" then
        (fix star (name : string) : bool :=
           fnmatch pattern' name ||
           match name with
           | EmptyString => false
           | String _ name' => star name'
           end) name
      else
        match name with
        | EmptyString => false
        | String d name' =>
            (Ascii.eqb c "?" || Ascii.eqb c d) && fnmatch pattern' name'
        end
  end.

(** A pattern without [*], [?] and [[]. *)
Fixpoint literal (pattern : string) : bool :=
  match pattern with
  | EmptyString => true
  | String c pattern' =>
      negb (Ascii.eqb c "*") && negb (Ascii.eqb c "?") && negb (Ascii.eqb c "[")
      && literal pattern'
  end.

(** [Path.exists()] as the selector of a pattern without wildcards uses it:
    it follows links; a refused [stat] raises [PermissionError], which the
    selector swallows, so that the path counts as absent. *)
Definition found (n : node) : bool :=
  match follow n with
  | Some Denied => false
  | Some _ => true
  | None => false
  end.

(** The entries of one directory that [rglob(pattern)] selects.  With a
    wildcard the names of the listing are matched, without a [stat].  For a
    pattern without wildcards the directory is not listed: [pathlib] asks
    whether [dir/pattern] exists, which also reaches the entries of a
    directory that can be searched and not listed. *)
Definition select (pattern : string) (n : node) : list (string * node) :=
  if literal pattern then
    match n with
    | Directory (Some children) =>
        List.filter (fun c : string * node =>
                       String.eqb (fst c) pattern && found (snd c)) children
    | SearchOnly children =>
        List.filter (fun c : string * node =>
                       String.eqb (fst c) pattern && found (snd c)) children
    | _ => []
    end
  else
    match n with
    | Directory (Some children) =>
        List.filter (fun c : string * node => fnmatch pattern (fst c)) children
    | _ => []
    end.

(** [Path(dir).rglob(pattern)] below directory node [n]: what [select]
    takes from the directory, then, for each real sub-directory that the
    listing shows, its own [rglob(pattern)]. *)
Fixpoint rglob_pattern (pattern : string) (dir : string) (n : node) : list entry :=
  map (fun c : string * node => (joinpath dir (fst c), snd c)) (select pattern n)
  ++ match n with
     | Directory (Some children) =>
         flat_map (fun c : string * node =>
                     match snd c with
                     | Directory _ => rglob_pattern pattern (joinpath dir (fst c)) (snd c)
                     | SearchOnly _ => rglob_pattern pattern (joinpath dir (fst c)) (snd c)
                     | _ => []
                     end) children
     | _ => []
     end.

(** [directory.rglob(pattern)] from the root, which is asked [is_dir()]
    first. *)
Definition walk_pattern (self : FileOrganizer) (fs : string -> option node)
    (directory : option string) (pattern : string) : result OSError (list entry) :=
  match fs (scan_root self directory) with
  | Some r =>
      match follow r with
      | Some (Directory l) =>
          Ok (rglob_pattern pattern (scan_root self directory) (Directory l))
      | Some (SearchOnly h) =>
          Ok (rglob_pattern pattern (scan_root self directory) (SearchOnly h))
      | Some Denied => Err PermissionError
      | _ => Ok []
      end
  | None => Ok []
  end.

(** [temp_patterns] (lines 240-241). *)
Definition temp_patterns : list string :=
  ["~*"; "*.tmp"; "*.temp"; "*.cache"; "*.bak"; "*.old";
   "Desktop.ini"; "Thumbs.db"; ".DS_Store"; "*.swp"; "*.swo"].

(** One round of the generator [str(p) for p in ... if p.is_file()] feeding
    [extend]: no [try] stands around [is_file()]. *)
Definition keep_file (temp_files : list string) (p : entry)
    : result OSError (list string) :=
  match is_file (snd p) with
  | Err e => Err e
  | Ok true => Ok (temp_files ++ [fst p])
  | Ok false => Ok temp_files
  end.

(** [temp_files.extend(str(p) for p in directory.rglob(pattern) if p.is_file())]. *)
Definition temp_step (self : FileOrganizer) (fs : string -> option node)
    (directory : option string) (temp_files : list string) (pattern : string)
    : result OSError (list string) :=
  match walk_pattern self fs directory pattern with
  | Err e => Err e
  | Ok entries => for_each keep_file entries temp_files
  end.

(** [find_temp_files] (lines 233-248). *)
Definition find_temp_files (self : FileOrganizer) (fs : string -> option node)
    (directory : option string) : outcome (list string) :=
  match for_each (temp_step self fs directory) temp_patterns [] with
  | Err e => Raised (Os e)
  | Ok temp_files => Returned temp_files
  end.

(** [try: os.remove(file_path) except (PermissionError, OSError): pass]. *)
Definition remove_quietly (w : world) (file_path : string) : world :=
  match os_remove file_path w with
  | Ok w' => w'
  | Err _ => w
  end.

(** [remove_temp_files] (lines 250-261): what [find_temp_files] raises
    leaves the call before anything is removed. *)
Definition remove_temp_files (self : FileOrganizer) (fs : string -> option node)
    (directory : option string) (dry_run : bool) (w : world)
    : world * outcome (list string) :=
  match find_temp_files self fs directory with
  | Raised e => (w, Raised e)
  | Returned temp_files =>
      (if dry_run then w else fold_left remove_quietly temp_files w,
       Returned temp_files)
  end.




(** [closed] can be neither listed nor searched; [vault] can be searched
    and not listed. *)
Definition temp_tree : node :=
  Directory (Some [ ("~lock.tmp", file "x");
                    ("notes.txt", file "n");
                    ("old", Directory (Some [ ("a.bak", file "b");
                                              ("Thumbs.db", file "t");
                                              ("empty", Directory (Some [])) ]));
                    ("cache.tmp", Directory (Some []));
                    ("closed", Directory None);
                    ("vault", SearchOnly [ ("Thumbs.db", file "v");
                                           ("draft.tmp", file "d") ]) ]).

(** A walked entry with the directory it was found in and its name. *)
Record named := Named { dir_of : string; name_of : string; node_of : node }.

Definition path_of (e : named) : string := joinpath (dir_of e) (name_of e).
Definition entry_of (e : named) : entry := (path_of e, node_of e).

(** [rglob('*')], keeping for each [Path] its parent and its final component. *)
Fixpoint rglob_named (dir : string) (n : node) : list named :=
  match n with
  | Directory (Some children) =>
      map (fun c : string * node => Named dir (fst c) (snd c)) children
      ++ flat_map (fun c : string * node =>
                     match snd c with
                     | Directory _ => rglob_named (joinpath dir (fst c)) (snd c)
                     | _ => []
                     end) children
  | _ => []
  end.

(** [rglob_root], keeping the names. *)
Definition rglob_root_named (dir : string) (root : option node)
    : result OSError (list named) :=
  match root with
  | Some r =>
      match follow r with
      | Some (Directory l) => Ok (rglob_named dir (Directory l))
      | Some Denied => Err PermissionError
      | _ => Ok []
      end
  | None => Ok []
  end.

Definition walk_named (self : FileOrganizer) (fs : string -> option node)
    (directory : option string) : list named :=
  match rglob_root_named (scan_root self directory) (fs (scan_root self directory)) with
  | Ok entries => entries
  | Err _ => []
  end.




(** A directory, or a link to one, whose listing succeeds and is empty. *)
Definition lists_nothing (n : node) : bool :=
  match follow n with
  | Some (Directory (Some [])) => true
  | _ => false
  end.


(** ** Disk usage *)

(** [d[k] += v] on a [defaultdict(int)]. *)
Fixpoint dd_add {K : Type} `{EqDecision K} (k : K) (v : Z) (d : dict K Z) : dict K Z :=
  match d with
  | [] => [(k, 0 + v)]
  | (k', x) :: d' =>
      if decide (k = k') then (k', x + v) :: d' else (k', x) :: dd_add k v d'
  end.

(** [d[k]] where present. *)
Fixpoint dict_get {K V : Type} `{EqDecision K} (k : K) (d : dict K V) : option V :=
  match d with
  | [] => None
  | (k', x) :: d' => if decide (k = k') then Some x else dict_get k d'
  end.

(** A stable sort in descending order: [list.sort(reverse=True)] and
    [sorted(..., reverse=True)].  [lt x y] says that the key of [x] is below
    the key of [y]; elements with equal keys keep their order. *)
Fixpoint insert_desc {A : Type} (lt : A -> A -> bool) (x : A) (l : list A) : list A :=
  match l with
  | [] => [x]
  | y :: l' => if lt x y then y :: insert_desc lt x l' else x :: y :: l'
  end.

Definition sort_desc {A : Type} (lt : A -> A -> bool) (l : list A) : list A :=
  fold_right (insert_desc lt) [] l.

(** The order of the tuples [(size, path)]: by size, then by path. *)
Definition tuple_lt (a b : Z * string) : bool :=
  (fst a <? fst b) || ((fst a =? fst b) && String.ltb (snd a) (snd b)).

(** The order by [key=lambda x: x[1]]. *)
Definition size_lt (a b : string * Z) : bool := snd a <? snd b.

(** [l[:n]]: a negative [n] counts from the end. *)
Definition slice_to {A : Type} (n : Z) (l : list A) : list A :=
  if 0 <=? n then firstn (Z.to_nat n) l
  else firstn (length l - Z.to_nat (- n)) l.

(** The three accumulators of the loop (lines 290-292). *)
Record usage_state := Usage {
  acc_total_size : Z;
  acc_type_sizes : dict string Z;
  acc_file_sizes : list (Z * string) }.

(** Body of the loop (lines 295-306): a failing [stat] skips the file before
    any accumulator changes; [is_file()] stands outside the [try]. *)
Definition usage_step (st : usage_state) (file_path : named)
    : result OSError usage_state :=
  match is_file (node_of file_path) with
  | Err e => Err e
  | Ok true =>
      match stat_st_size (node_of file_path) with
      | Ok size =>
          let ext := lower (suffix (name_of file_path)) in
          let category := _get_category ext in
          Ok (Usage (acc_total_size st + size)
                    (dd_add category size (acc_type_sizes st))
                    (acc_file_sizes st ++ [(size, path_of file_path)]))
      | Err _ => Ok st
      end
  | Ok false => Ok st
  end.

Section usage.
(** The rounded figures [round(size / 1024 / 1024, 2)] and
    [round(total_size / 1024 / 1024 / 1024, 2)] are floating-point values;
    they are carried along as values of a type [F] computed by [mb] and
    [gb], of which nothing is assumed. *)
Variable F : Type.
Variables mb gb : Z -> F.

(** The dictionary that [analyze_disk_usage] returns. *)
Record usage_report := Report {
  total_size : Z;
  total_size_gb : F;
  type_breakdown : dict string (Z * F);
  largest_files : list (string * Z * F) }.

(** Lines 308-326: the report made of the accumulators. *)
Definition usage_report_of (st : usage_state) (top_n : Z) : usage_report :=
  let file_sizes := sort_desc tuple_lt (acc_file_sizes st) in
  Report (acc_total_size st) (gb (acc_total_size st))
    (map (fun item : string * Z => (fst item, (snd item, mb (snd item))))
         (sort_desc size_lt (acc_type_sizes st)))
    (map (fun item : Z * string => (snd item, fst item, mb (fst item)))
         (slice_to top_n file_sizes)).

(** [analyze_disk_usage] (lines 281-326).  An [OSError] of [rglob] or of
    [is_file()] is not caught. *)
Definition analyze_disk_usage (self : FileOrganizer) (fs : string -> option node)
    (directory : option string) (top_n : Z) : outcome usage_report :=
  match rglob_root_named (scan_root self directory) (fs (scan_root self directory)) with
  | Err e => Raised (Os e)
  | Ok entries =>
      match for_each usage_step entries (Usage 0 [] []) with
      | Err e => Raised (Os e)
      | Ok st => Returned (usage_report_of st top_n)
      end
  end.
End usage.

Arguments total_size {F} _.
Arguments total_size_gb {F} _.
Arguments type_breakdown {F} _.
Arguments largest_files {F} _.

(** The size and path of every walked file whose [stat] succeeds. *)
Fixpoint measured (entries : list named) : list (Z * string) :=
  match entries with
  | [] => []
  | e :: rest =>
      if a_file (node_of e) then
        match stat_st_size (node_of e) with
        | Ok size => (size, path_of e) :: measured rest
        | Err _ => measured rest
        end
      else measured rest
  end.

(** The sizes of the measured files of one category. *)
Fixpoint category_sizes (category : string) (entries : list named) : list Z :=
  match entries with
  | [] => []
  | e :: rest =>
      if a_file (node_of e) then
        match stat_st_size (node_of e) with
        | Ok size =>
            if String.eqb (_get_category (lower (suffix (name_of e)))) category
            then size :: category_sizes category rest
            else category_sizes category rest
        | Err _ => category_sizes category rest
        end
      else category_sizes category rest
  end.

Definition sum_Z (l : list Z) : Z := fold_right Z.add 0 l.

Definition usage_tree : node :=
  Directory (Some [ ("report.PDF", Regular (Ok 3000) (Ok []));
                    ("notes.txt", Regular (Ok 500) (Ok []));
                    ("src", Directory (Some [ ("main.py", Regular (Ok 1200) (Ok []));
                                              ("Makefile", Regular (Ok 800) (Ok [])) ]));
                    ("photo.jpeg", Regular (Ok 3000) (Ok []));
                    ("gone", Regular (Err FileNotFoundError) (Err FileNotFoundError)) ]).

(** ** Organizing by type *)

(** [d[k] = v]: an existing key keeps its place. *)
Fixpoint dict_set {K V : Type} `{EqDecision K} (k : K) (v : V) (d : dict K V) : dict K V :=
  match d with
  | [] => [(k, v)]
  | (k', x) :: d' =>
      if decide (k = k') then (k', v) :: d' else (k', x) :: dict_set k v d'
  end.

(** The system calls behind [organize_by_type], on a state [W] of the file
    system: [os.listdir] (through [Path.iterdir]), [Path.is_file],
    [Path.mkdir(parents=True, exist_ok=True)] and [shutil.move]. *)
Record OS (W : Type) := {
  os_listdir : string -> W -> result OSError (list string);
  os_is_file : string -> W -> result OSError bool;
  os_makedirs : string -> W -> result OSError W;
  shutil_move : string -> string -> W -> result OSError W }.
Arguments os_listdir {W} _ _ _.
Arguments os_is_file {W} _ _ _.
Arguments os_makedirs {W} _ _ _.
Arguments shutil_move {W} _ _ _ _.

(** [is_file()] answers that the path is a file. *)
Definition path_is_file {W : Type} (os : OS W) (file_path : string) (w : W) : bool :=
  match os_is_file os file_path w with
  | Ok true => true
  | _ => false
  end.

(** [self._get_category(file_path.suffix.lower())] for a name. *)
Definition category_of (name : string) : string := _get_category (lower (suffix name)).

(** [dest_dir / category / file_path.name]. *)
Definition destination (dest name : string) : string :=
  joinpath (joinpath dest (category_of name)) name.

(** The loop of [organize_by_type] (lines 146-156) over the listed names.
    An [OSError] of [is_file()], [mkdir] or [shutil.move] is not caught. *)
Fixpoint organize_loop {W : Type} (os : OS W) (source dest : string) (dry_run : bool)
    (names : list string) (w : W) (moves : dict string string)
    : W * result OSError (dict string string) :=
  match names with
  | [] => (w, Ok moves)
  | name :: rest =>
      let file_path := joinpath source name in
      match os_is_file os file_path w with
      | Err e => (w, Err e)
      | Ok true =>
          let category := category_of name in
          if String.eqb category "" then
            organize_loop os source dest dry_run rest w moves
          else
            let dest_path := joinpath (joinpath dest category) name in
            let moves' := dict_set file_path dest_path moves in
            if dry_run then organize_loop os source dest dry_run rest w moves'
            else
              match os_makedirs os (joinpath dest category) w with
              | Err e => (w, Err e)
              | Ok w1 =>
                  match shutil_move os file_path dest_path w1 with
                  | Err e => (w1, Err e)
                  | Ok w2 => organize_loop os source dest dry_run rest w2 moves'
                  end
              end
      | Ok false => organize_loop os source dest dry_run rest w moves
      end
  end.

(** [Path(dest_dir or source_dir / 'organized')] (line 142). *)
Definition organize_dest (source : string) (dest_dir : option string) : string :=
  match dest_dir with
  | Some d => if String.eqb d "" then joinpath source "organized" else d
  | None => joinpath source "organized"
  end.

(** [organize_by_type] (lines 129-158). *)
Definition organize_by_type {W : Type} (os : OS W) (self : FileOrganizer)
    (source_dir dest_dir : option string) (dry_run : bool) (w : W)
    : W * result OSError (dict string string) :=
  let source := scan_root self source_dir in
  let dest := organize_dest source dest_dir in
  match os_listdir os source w with
  | Err e => (w, Err e)
  | Ok names => organize_loop os source dest dry_run names w []
  end.

(** A small system for examples: the state is the set of regular files, the
    listing is fixed, the status of every path can be read, directories can
    always be made, and a move fails when its source is missing or its
    destination is one of [locked]. *)
Definition flat_os (names : list string) (locked : list string) : OS (gset string) :=
  {| os_listdir := fun _ _ => Ok names;
     os_is_file := fun p w => Ok (bool_decide (p ∈ w));
     os_makedirs := fun _ w => Ok w;
     shutil_move := fun src dst w =>
       if bool_decide (src ∈ w) then
         if bool_decide (dst ∈ locked) then Err PermissionError
         else Ok ({[dst]} ∪ (w ∖ {[src]}))
       else Err FileNotFoundError |}.

Definition desk_names : list string := ["cv.PDF"; "todo"; "song.mp3"; "sub"].
Definition desk_files : gset string := {[ "/data/cv.PDF"; "/data/todo"; "/data/song.mp3" ]}.

(** [desk_files] after the first two moves, and after all three. *)
Definition desk_files_after_two : gset string :=
  {[ "/data/organized/documents/cv.PDF"; "/data/organized/other/todo"; "/data/song.mp3" ]}.
Definition desk_files_organized : gset string :=
  {[ "/data/organized/documents/cv.PDF"; "/data/organized/other/todo";
     "/data/organized/audio/song.mp3" ]}.


(** * Proofs *)

(** ** MD5 against the test suite of RFC 1321 *)

Example md5_empty : MD5.hexdigest [] = "d41d8cd98f00b204e9800998ecf8427e".
Proof. vm_compute. reflexivity. Qed.

Example md5_abc :
  MD5.hexdigest (list_byte_of_string "abc") = "900150983cd24fb0d6963f7d28e17f72".
Proof. vm_compute. reflexivity. Qed.

Example md5_message_digest :
  MD5.hexdigest (list_byte_of_string "message digest") = "f96b697d7cb7938d525a2f31aaf161d0".
Proof. vm_compute. reflexivity. Qed.

Example md5_digits :
  MD5.hexdigest (list_byte_of_string
    "12345678901234567890123456789012345678901234567890123456789012345678901234567890")
  = "57edf4a22be3c955ac49da2e2107b67a".
Proof. vm_compute. reflexivity. Qed.

(** ** The hashing loop *)

Lemma firstn_nil_inv {A} (k : nat) (f : list A) : (0 < k)%nat -> firstn k f = [] -> f = [].
Proof. destruct k; [lia|]. by destruct f. Qed.

Lemma hash_loop_absorbs chunk_size f hasher :
  (0 < chunk_size)%nat ->
  hash_loop chunk_size f hasher = MD5.Hasher (MD5.absorbed hasher ++ f).
Proof.
  intros Hpos. funelim (hash_loop chunk_size f hasher).
  - match goal with H : take _ _ = [] |- _ => apply firstn_nil_inv in H; [|done]; subst end.
    destruct hasher. simpl. by rewrite app_nil_r.
  - match goal with IH : _ -> hash_loop _ _ _ = _ |- _ => rewrite IH by done end.
    simpl. rewrite <- app_assoc.
    match goal with H : take _ _ = _ :: _ |- _ => rewrite <- H end.
    by rewrite take_drop.
Qed.

Lemma hash_file_ok n h :
  _hash_file n chunk_size_default = Ok h <->
  exists c, open_rb n = Ok c /\ MD5.hexdigest c = h.
Proof.
  unfold _hash_file. destruct (open_rb n) as [c|e].
  - rewrite hash_loop_absorbs by (unfold chunk_size_default; lia).
    unfold MD5.hasher_hexdigest. simpl. split.
    + intros [= <-]. by exists c.
    + intros (c' & [= <-] & <-). done.
  - split; [done|]. by intros (c & ? & _).
Qed.

(** ** Dictionaries *)

Section dict_facts.
Context {K V : Type} `{EqDecision K}.
Implicit Types (d : dict K (list V)).

Lemma dmem_nil k (v : V) : ~ dmem k v ([] : dict K (list V)).
Proof. intros (vs & H & _). by apply elem_of_nil in H. Qed.

Lemma dmem_dd_append k v k0 v0 d :
  dmem k v (dd_append k0 v0 d) <-> (k = k0 /\ v = v0) \/ dmem k v d.
Proof.
  unfold dmem. induction d as [|[k' vs'] d IH]; simpl.
  - split.
    + intros (vs & Hin & Hv). apply list_elem_of_singleton in Hin as [= -> ->].
      apply list_elem_of_singleton in Hv. by left.
    + intros [[-> ->]|(vs & Hin & _)]; [|by apply elem_of_nil in Hin].
      exists [v0]. split; by apply list_elem_of_singleton.
  - destruct (decide (k0 = k')) as [->|Hne].
    + split.
      * intros (vs & Hin & Hv). apply elem_of_cons in Hin as [[= -> ->]|Hin].
        -- apply elem_of_app in Hv as [Hv|Hv%list_elem_of_singleton].
           ++ right. exists vs'. split; [by left|done].
           ++ by left.
        -- right. exists vs. split; [by right|done].
      * intros [[-> ->]|(vs & Hin & Hv)].
        -- exists (vs' ++ [v0]). split; [by left|]. apply elem_of_app. right. by left.
        -- apply elem_of_cons in Hin as [[= -> ->]|Hin].
           ++ exists (vs' ++ [v0]). split; [by left|]. apply elem_of_app. by left.
           ++ exists vs. split; [by right|done].
    + split.
      * intros (vs & Hin & Hv). apply elem_of_cons in Hin as [[= -> ->]|Hin].
        -- right. exists vs'. split; [by left|done].
        -- destruct (proj1 IH) as [?|(vs2 & ? & ?)]; [by exists vs|by left|].
           right. exists vs2. split; [by right|done].
      * intros [Heq|(vs & Hin & Hv)].
        -- destruct (proj2 IH (or_introl Heq)) as (vs2 & ? & ?).
           exists vs2. split; [by right|done].
        -- apply elem_of_cons in Hin as [[= -> ->]|Hin].
           ++ exists vs'. split; [by left|done].
           ++ destruct (proj2 IH) as (vs2 & ? & ?); [right; by exists vs|].
              exists vs2. split; [by right|done].
Qed.
End dict_facts.

(** ** Loops that may raise *)

Lemma for_each_quiet {E A S} (body : S -> A -> result E S) items s s' :
  for_each body items s = Ok s' -> s' = fold_left (quiet body) items s.
Proof.
  revert s. induction items as [|x items IH]; intros s; simpl.
  - by intros [= ->].
  - unfold quiet at 2. destruct (body s x) as [s1|e]; [apply IH|done].
Qed.

Lemma for_each_app {E A S} (body : S -> A -> result E S) pre post s :
  for_each body (pre ++ post) s =
  match for_each body pre s with
  | Ok s1 => for_each body post s1
  | Err e => Err e
  end.
Proof.
  revert s. induction pre as [|x pre IH]; intros s; simpl; [done|].
  destruct (body s x) as [s1|e]; [apply IH|done].
Qed.

(** A loop over entries whose body raises exactly what a test of the entry
    raises ends with the exception of the first entry that the test
    refuses, or with what the quiet steps build. *)
Lemma for_each_first_raise {S} (body : S -> entry -> result OSError S)
    (test : node -> result OSError bool) entries s :
  (forall s x, match test (snd x) with
               | Err e => body s x = Err e
               | Ok _ => exists s', body s x = Ok s'
               end) ->
  for_each body entries s =
  match first_raise test entries with
  | Some e => Err e
  | None => Ok (fold_left (quiet body) entries s)
  end.
Proof.
  intros Hbody. revert s. induction entries as [|x entries IH]; intros s; simpl; [done|].
  specialize (Hbody s x).
  destruct (test (snd x)) as [b|e].
  - destruct Hbody as [s' Hs']. rewrite Hs'.
    replace (quiet body s x) with s' by (unfold quiet; by rewrite Hs').
    apply IH.
  - by rewrite Hbody.
Qed.


Lemma first_raise_Some test entries e :
  first_raise test entries = Some e <->
  exists pre x post, entries = pre ++ x :: post /\ test (snd x) = Err e /\
    forall y, y ∈ pre -> exists b, test (snd y) = Ok b.
Proof.
  induction entries as [|y entries IH]; simpl.
  - split; [done|]. intros (pre & x & post & H & _). by destruct pre.
  - destruct (test (snd y)) as [b|e'] eqn:Hy.
    + rewrite IH. split.
      * intros (pre & x & post & -> & Hx & Hpre). exists (y :: pre), x, post.
        split; [done|]. split; [done|].
        intros z [->|Hz]%elem_of_cons; [by exists b|by apply Hpre].
      * intros (pre & x & post & Heq & Hx & Hpre). destruct pre as [|z pre];
          simpl in Heq; injection Heq as Hhead Htail; subst.
        -- congruence.
        -- exists pre, x, post. split; [done|]. split; [done|].
           intros u Hu. apply Hpre. by right.
    + split.
      * intros [= ->]. exists [], y, entries. split; [done|]. split; [done|].
        intros z Hz. by apply elem_of_nil in Hz.
      * intros (pre & x & post & Heq & Hx & Hpre). destruct pre as [|z pre];
          simpl in Heq; injection Heq as Hhead Htail; subst.
        -- congruence.
        -- destruct (Hpre z) as [b Hb]; [by left|congruence].
Qed.

(** ** The two passes of the scan *)

Lemma size_step_raises min_size size_map x :
  match is_file (snd x) with
  | Err e => size_step min_size size_map x = Err e
  | Ok _ => exists m, size_step min_size size_map x = Ok m
  end.
Proof.
  unfold size_step. destruct (is_file (snd x)) as [[|]|e]; [|by eexists|done].
  destruct (stat_st_size (snd x)); by eexists.
Qed.

(** The first loop ends with the exception of the first entry for which
    [is_file()] raises, or with [size_map_of]. *)
Lemma size_pass_spec min_size entries :
  size_pass min_size entries =
  match first_raise is_file entries with
  | Some e => Err e
  | None => Ok (size_map_of min_size entries)
  end.
Proof.
  unfold size_pass, size_map_of. apply for_each_first_raise.
  intros s x. apply size_step_raises.
Qed.

(** What a scan that returns has returned. *)
Lemma find_duplicates_returned self fs directory min_size r :
  find_duplicates self fs directory min_size = Returned r ->
  rglob_root (scan_root self directory) (fs (scan_root self directory))
    = Ok (walk self fs directory) /\
  first_raise is_file (walk self fs directory) = None /\
  r = List.filter (fun item => (1 <? length (snd item))%nat)
        (hash_pass (size_map_of min_size (walk self fs directory))).
Proof.
  unfold find_duplicates, walk.
  destruct (rglob_root _ _) as [entries|e]; [|done].
  rewrite size_pass_spec.
  destruct (first_raise is_file entries) as [e|]; [done|].
  by intros [= <-].
Qed.

Lemma size_step_dmem min_size size_map e size x :
  dmem size x (quiet (size_step min_size) size_map e) ->
  dmem size x size_map \/
  (x = e /\ is_file (snd e) = Ok true /\ stat_st_size (snd e) = Ok size /\ min_size <= size).
Proof.
  unfold quiet, size_step. destruct (is_file (snd e)) as [[|]|err0] eqn:Hf; [|by left..].
  destruct (stat_st_size (snd e)) as [s|err] eqn:Hs; [|by left].
  destruct (Z.leb_spec min_size s); [|by left].
  rewrite dmem_dd_append. intros [[-> ->]|Hd]; [right|left]; done.
Qed.

Lemma size_pass_sound min_size entries size x :
  dmem size x (size_map_of min_size entries) ->
  x ∈ entries /\ is_file (snd x) = Ok true /\
  stat_st_size (snd x) = Ok size /\ min_size <= size.
Proof.
  unfold size_map_of.
  assert (G : forall acc,
    dmem size x (fold_left (quiet (size_step min_size)) entries acc) ->
    dmem size x acc \/ (x ∈ entries /\ is_file (snd x) = Ok true /\
      stat_st_size (snd x) = Ok size /\ min_size <= size)).
  { induction entries as [|e entries IH]; intros acc; simpl; [by left|].
    intros H. destruct (IH _ H) as [Hacc|(Hin & ?)].
    - apply size_step_dmem in Hacc as [?|(-> & ?)]; [by left|right].
      split; [by left|done].
    - right. split; [by right|done]. }
  intros H. destruct (G [] H) as [Hnil|?]; [by apply dmem_nil in Hnil|done].
Qed.

Lemma hash_step_dmem hash_map e h p :
  dmem h p (hash_step hash_map e) ->
  dmem h p hash_map \/ (p = fst e /\ _hash_file (snd e) chunk_size_default = Ok h).
Proof.
  unfold hash_step. destruct (_hash_file (snd e) chunk_size_default) as [fh|err]; [|by left].
  rewrite dmem_dd_append. intros [[-> ->]|Hd]; [right|left]; done.
Qed.

Lemma hash_fold_dmem files hash_map h p :
  dmem h p (fold_left hash_step files hash_map) ->
  dmem h p hash_map \/
  exists e, e ∈ files /\ p = fst e /\ _hash_file (snd e) chunk_size_default = Ok h.
Proof.
  revert hash_map. induction files as [|e files IH]; intros hash_map; simpl; [by left|].
  intros H. destruct (IH _ H) as [Hacc|(e' & Hin & ?)].
  - apply hash_step_dmem in Hacc as [?|?]; [by left|right]. exists e. split; [by left|done].
  - right. exists e'. split; [by right|done].
Qed.

Lemma hash_pass_sound size_map h p :
  dmem h p (hash_pass size_map) ->
  exists size e, dmem size e size_map /\ p = fst e /\
    _hash_file (snd e) chunk_size_default = Ok h.
Proof.
  unfold hash_pass.
  assert (G : forall acc, dmem h p (fold_left bucket_step size_map acc) ->
    dmem h p acc \/ exists size e, dmem size e size_map /\ p = fst e /\
      _hash_file (snd e) chunk_size_default = Ok h).
  { induction size_map as [|[s files] size_map IH]; intros acc; simpl; [by left|].
    intros H. destruct (IH _ H) as [Hacc|(s' & e & (vs & Hin & Hv) & ?)].
    - unfold bucket_step in Hacc. simpl in Hacc.
      destruct (1 <? length files)%nat; [|by left].
      apply hash_fold_dmem in Hacc as [?|(e & Hin & ?)]; [by left|right].
      exists s, e. split; [|done]. exists files. split; [by left|done].
    - right. exists s', e. split; [|done]. exists vs. split; [by right|done]. }
  intros H. destruct (G [] H) as [Hnil|?]; [by apply dmem_nil in Hnil|done].
Qed.

(** ** Soundness of the scan

    Every member of a returned group is a walked entry that passed every
    test of the scan. *)
Lemma find_duplicates_sound self fs directory min_size r h paths p :
  find_duplicates self fs directory min_size = Returned r ->
  (h, paths) ∈ r -> p ∈ paths ->
  (2 <= length paths)%nat /\
  exists n size c, (p, n) ∈ walk self fs directory /\ is_file n = Ok true /\
    stat_st_size n = Ok size /\ min_size <= size /\
    open_rb n = Ok c /\ MD5.hexdigest c = h.
Proof.
  intros (_ & _ & ->)%find_duplicates_returned Hin Hp.
  apply list_elem_of_In, filter_In in Hin as [Hin Hlen]. apply list_elem_of_In in Hin.
  simpl in Hlen. apply Nat.ltb_lt in Hlen. split; [lia|].
  destruct (hash_pass_sound (size_map_of min_size (walk self fs directory)) h p)
    as (size & [q n] & Hsz & -> & Hh).
  { exists paths. done. }
  apply size_pass_sound in Hsz as (Hw & Hf & Hs & Hm).
  apply hash_file_ok in Hh as (c & Hc & Hd).
  exists n, size, c. done.
Qed.

(** ** The resolver *)

Lemma groups_loop_app keep dry_run d1 d2 w acc :
  groups_loop keep dry_run (d1 ++ d2) w acc =
  match groups_loop keep dry_run d1 w acc with
  | (w1, Returned acc1) => groups_loop keep dry_run d2 w1 acc1
  | (w1, Raised e) => (w1, Raised e)
  end.
Proof.
  revert w acc. induction d1 as [|[h paths] d1 IH]; intros w acc; simpl; [done|].
  destruct (select_keep keep paths) as [k|e]; [|done].
  destruct (delete_rest dry_run k paths w acc) as [w' acc']. apply IH.
Qed.

Lemma delete_rest_dry to_keep paths w acc :
  delete_rest true to_keep paths w acc = (w, acc ++ candidates to_keep paths).
Proof.
  revert acc. induction paths as [|p paths IH]; intros acc; simpl.
  - by rewrite app_nil_r.
  - unfold candidates. rewrite filter_cons. destruct (decide (p = to_keep)) as [->|Hne].
    + rewrite decide_False by (intros H; by apply H). apply IH.
    + rewrite decide_True by done. rewrite IH. by rewrite <- app_assoc.
Qed.

Lemma attempt_app l1 l2 d :
  attempt (l1 ++ l2) d =
  let '(d1, r1) := attempt l1 d in
  let '(d2, r2) := attempt l2 d1 in (d2, r1 ++ r2).
Proof.
  revert d. induction l1 as [|c l1 IH]; intros d; simpl.
  - by destruct (attempt l2 d).
  - destruct (unlink c d) as [d'|e]; rewrite IH.
    + destruct (attempt l1 d') as [d1 r1]. by destruct (attempt l2 d1).
    + destruct (attempt l1 d) as [d1 r1]. by destruct (attempt l2 d1).
Qed.

Lemma delete_rest_real to_keep paths w acc :
  delete_rest false to_keep paths w acc =
  let '(d, rs) := attempt (candidates to_keep paths) (disk w) in
  (World d (stdout w ++ failure_lines rs), acc ++ deleted_paths rs).
Proof.
  revert w acc. induction paths as [|p paths IH]; intros w acc; simpl.
  - destruct w. simpl. by rewrite !app_nil_r.
  - unfold candidates. rewrite filter_cons. destruct (decide (p = to_keep)) as [->|Hne].
    + rewrite decide_False by (intros H; by apply H). apply IH.
    + rewrite decide_True by done. simpl. unfold os_remove.
      destruct (unlink p (disk w)) as [d'|e]; rewrite IH; simpl.
      * fold (candidates to_keep paths).
        destruct (attempt (candidates to_keep paths) d') as [d'' rs]. simpl.
        by rewrite <- app_assoc.
      * fold (candidates to_keep paths).
        destruct (attempt (candidates to_keep paths) (disk w)) as [d'' rs]. simpl.
        by rewrite <- app_assoc.
Qed.

Lemma attempt_paths cands d : map fst (snd (attempt cands d)) = cands.
Proof.
  revert d. induction cands as [|c cands IH]; intros d; simpl; [done|].
  destruct (unlink c d) as [d'|e].
  - specialize (IH d'). destruct (attempt cands d'). simpl in *. by rewrite IH.
  - specialize (IH d). destruct (attempt cands d). simpl in *. by rewrite IH.
Qed.

Lemma records_split (rs : list DeletionRecord) p :
  Forall (fun r => snd r <> would_delete) rs ->
  p ∈ map fst rs <->
  p ∈ deleted_paths rs \/ exists e, Failed_to_delete p e ∈ failure_lines rs.
Proof.
  induction rs as [|[q o] rs IH]; intros HF; simpl.
  - split; [by intros ?%elem_of_nil|]. intros [?%elem_of_nil|[e ?%elem_of_nil]]; done.
  - apply Forall_cons in HF as [Ho HF]. specialize (IH HF). simpl in Ho.
    destruct o as [|e|]; [| |done].
    + rewrite !elem_of_cons, IH. tauto.
    + rewrite elem_of_cons, IH. split.
      * intros [->|[H|[e' H]]]; [right; exists e; left|by left|right; exists e'; right]; done.
      * intros [H|[e' H]]; [by right; left|].
        apply elem_of_cons in H as [H|H]; [left; congruence|right; right; eauto].
Qed.

Lemma attempt_no_would_delete cands d :
  Forall (fun r : DeletionRecord => snd r <> would_delete) (snd (attempt cands d)).
Proof.
  revert d. induction cands as [|c cands IH]; intros d; simpl; [constructor|].
  destruct (unlink c d) as [d'|e].
  - specialize (IH d'). destruct (attempt cands d'). simpl in *. by constructor.
  - specialize (IH d). destruct (attempt cands d). simpl in *. by constructor.
Qed.

Lemma attempt_files cands d p :
  p ∈ files (fst (attempt cands d)) <-> p ∈ files d /\ p ∉ deleted_paths (snd (attempt cands d)).
Proof.
  revert d. induction cands as [|c cands IH]; intros d; simpl.
  - rewrite elem_of_nil. tauto.
  - destruct (unlink c d) as [d'|e] eqn:Hu.
    + specialize (IH d'). destruct (attempt cands d') as [d'' rs]. simpl in *.
      rewrite IH. unfold unlink in Hu. repeat case_decide; try done.
      injection Hu as <-. simpl.
      rewrite not_elem_of_cons, elem_of_difference, elem_of_singleton. tauto.
    + specialize (IH d). destruct (attempt cands d) as [d'' rs]. simpl in *. done.
Qed.

Lemma deleted_paths_sub (rs : list DeletionRecord) p :
  p ∈ deleted_paths rs -> p ∈ map fst rs.
Proof.
  induction rs as [|[q o] rs IH]; simpl; [done|].
  destruct o; rewrite ?elem_of_cons; tauto.
Qed.

Lemma deleted_paths_app r1 r2 : deleted_paths (r1 ++ r2) = deleted_paths r1 ++ deleted_paths r2.
Proof. induction r1 as [|[p []] r1 IH]; simpl; by rewrite ?IH. Qed.

Lemma failure_lines_app r1 r2 : failure_lines (r1 ++ r2) = failure_lines r1 ++ failure_lines r2.
Proof. induction r1 as [|[p []] r1 IH]; simpl; by rewrite ?IH. Qed.

Lemma groups_loop_dry keep d w acc :
  groups_loop keep true d w acc =
  (w, match would_delete_all keep d with
      | Returned l => Returned (acc ++ l)
      | Raised e => Raised e
      end).
Proof.
  revert acc. induction d as [|[h paths] d IH]; intros acc; simpl.
  - by rewrite app_nil_r.
  - destruct (select_keep keep paths) as [k|e]; [|done].
    rewrite delete_rest_dry, IH.
    destruct (would_delete_all keep d); [|done]. by rewrite app_assoc.
Qed.

Lemma groups_loop_real keep d w acc cands :
  would_delete_all keep d = Returned cands ->
  groups_loop keep false d w acc =
  let '(dk, rs) := attempt cands (disk w) in
  (World dk (stdout w ++ failure_lines rs), Returned (acc ++ deleted_paths rs)).
Proof.
  revert w acc cands. induction d as [|[h paths] d IH]; intros w acc cands; simpl.
  - intros [= <-]. simpl. destruct w. simpl. by rewrite !app_nil_r.
  - destruct (select_keep keep paths) as [k|e]; [|done].
    destruct (would_delete_all keep d) as [l|e]; [|done].
    intros [= <-]. rewrite delete_rest_real, attempt_app.
    destruct (attempt (candidates k paths) (disk w)) as [d1 r1].
    rewrite (IH _ _ l eq_refl). simpl.
    destruct (attempt l d1) as [d2 r2].
    by rewrite deleted_paths_app, failure_lines_app, !app_assoc.
Qed.

Lemma min_from_in best rest : min_from best rest ∈ best :: rest.
Proof.
  revert best. induction rest as [|p rest IH]; intros best; simpl; [by left|].
  specialize (IH (if (String.length p <? String.length best)%nat then p else best)).
  destruct (String.length p <? String.length best)%nat;
    rewrite !elem_of_cons in *; tauto.
Qed.

Lemma max_from_in best rest : max_from best rest ∈ best :: rest.
Proof.
  revert best. induction rest as [|p rest IH]; intros best; simpl; [by left|].
  specialize (IH (if (String.length best <? String.length p)%nat then p else best)).
  destruct (String.length best <? String.length p)%nat;
    rewrite !elem_of_cons in *; tauto.
Qed.

Lemma select_keep_total keep paths :
  keep ∈ policies -> paths <> [] ->
  exists to_keep, select_keep keep paths = Returned to_keep /\ to_keep ∈ paths.
Proof.
  intros Hk Hne. unfold policies in Hk.
  destruct paths as [|p rest]; [done|].
  repeat (apply elem_of_cons in Hk as [->|Hk]); [| | | |by apply elem_of_nil in Hk].
  - exists p. split; [done|by left].
  - destruct (proj2 (last_is_Some (p :: rest)) Hne) as [q Hq].
    exists q. split; [|by apply last_Some_elem_of].
    unfold select_keep. simpl String.eqb. cbv iota. by rewrite Hq.
  - exists (min_from p rest). split; [done|apply min_from_in].
  - exists (max_from p rest). split; [done|apply max_from_in].
Qed.

Lemma select_keep_invalid keep paths :
  keep ∉ policies ->
  select_keep keep paths = Raised (ValueError ("Invalid keep strategy: " +:+ keep)).
Proof.
  intros Hk. unfold select_keep.
  destruct (String.eqb_spec keep "first") as [->|_];
    [exfalso; apply Hk; repeat constructor|].
  destruct (String.eqb_spec keep "last") as [->|_];
    [exfalso; apply Hk; repeat constructor|].
  destruct (String.eqb_spec keep "shortest_path") as [->|_];
    [exfalso; apply Hk; repeat constructor|].
  destruct (String.eqb_spec keep "longest_path") as [->|_];
    [exfalso; apply Hk; repeat constructor|].
  done.
Qed.

Lemma candidates_spec to_keep paths p :
  p ∈ candidates to_keep paths <-> p ∈ paths /\ p <> to_keep.
Proof. unfold candidates. rewrite list_elem_of_filter. tauto. Qed.


Lemma would_delete_all_total keep duplicates :
  keep ∈ policies -> Forall (fun g => snd g <> []) duplicates ->
  exists cands, would_delete_all keep duplicates = Returned cands.
Proof.
  intros Hk. induction duplicates as [|[h paths] rest IH]; intros HF; simpl.
  - by exists [].
  - apply Forall_cons in HF as [Hne HF]. simpl in Hne.
    destruct (select_keep_total keep paths Hk Hne) as (k & -> & _).
    destruct (IH HF) as [l ->]. by eexists.
Qed.

Lemma newest_not_a_policy : "newest" ∉ policies.
Proof.
  unfold policies. intros H.
  repeat (apply elem_of_cons in H as [H|H]; [discriminate H|]).
  by apply elem_of_nil in H.
Qed.

(** ** More on the scan *)

Lemma NoDup_fst_inj {A B} (l : list (A * B)) a b b' :
  NoDup (map fst l) -> (a, b) ∈ l -> (a, b') ∈ l -> b = b'.
Proof.
  induction l as [|[x y] l IH]; simpl; intros Hnd H1 H2.
  - by apply elem_of_nil in H1.
  - apply NoDup_cons in Hnd as [Hx Hnd].
    assert (Hfst : forall c, (a, c) ∈ l -> a ∈ map fst l).
    { intros c Hc. change a with (fst (a, c)). by apply list_elem_of_fmap_2. }
    apply elem_of_cons in H1 as [E1|H1]; apply elem_of_cons in H2 as [E2|H2].
    + congruence.
    + injection E1 as -> _. exfalso. eauto.
    + injection E2 as -> _. exfalso. eauto.
    + by apply IH.
Qed.

Lemma walk_unusable self fs directory :
  root_unusable (fs (scan_root self directory)) -> walk self fs directory = [].
Proof.
  unfold walk, root_unusable, rglob_root.
  destruct (fs (scan_root self directory)) as [r|]; [|done].
  destruct (follow r) as [[| [l|] | | | |]|]; done.
Qed.

(** The root check of [rglob] raises exactly when the status of the root
    cannot be read, and then [PermissionError]. *)
Lemma rglob_root_spec dir root :
  rglob_root dir root =
  if stat_refused root then Err PermissionError
  else Ok match rglob_root dir root with Ok entries => entries | Err _ => [] end.
Proof.
  unfold rglob_root, stat_refused. destruct root as [r|]; [|done].
  by destruct (follow r) as [[| | | | |]|].
Qed.




(** ** The sample tree *)

(** Case analysis on membership in a walk that computes to a literal list. *)
Ltac walked H :=
  vm_compute in H;
  repeat (apply elem_of_cons in H as [H|H]; [injection H as -> ->|]);
  [..|apply elem_of_nil in H; destruct H].

Lemma sample_scan :
  find_duplicates organizer (mount "/data" sample_tree) None 3 = Returned sample_result.
Proof. vm_compute. reflexivity. Qed.

Lemma sample_walk_NoDup :
  NoDup (map fst (walk organizer (mount "/data" sample_tree) None)).
Proof. apply (bool_decide_unpack _). vm_compute. exact I. Qed.

Lemma sample_sizes_match :
  sizes_match_contents (walk organizer (mount "/data" sample_tree) None).
Proof.
  intros p n size c Hw Hs Ho.
  walked Hw; vm_compute in Hs, Ho; try discriminate Hs; try discriminate Ho;
    injection Hs as <-; injection Ho as <-; reflexivity.
Qed.

Lemma sample_collision_free :
  collision_free (walk organizer (mount "/data" sample_tree) None).
Proof.
  intros p1 n1 c1 p2 n2 c2 H1 H2 Ho1 Ho2.
  walked H1; vm_compute in Ho1; try discriminate Ho1; injection Ho1 as <-;
    walked H2; vm_compute in Ho2; try discriminate Ho2; injection Ho2 as <-;
    intros Hd; first [reflexivity | vm_compute in Hd; discriminate Hd].
Qed.

(** The colliding pair has one digest and two contents. *)
Lemma collision_same_digest :
  MD5.hexdigest collision_a = MD5.hexdigest collision_b.
Proof. vm_compute. reflexivity. Qed.

Lemma collision_differs : collision_a <> collision_b.
Proof. intros H. vm_compute in H. discriminate H. Qed.

(** ** Paths that no group deletes *)




(** * The claims *)

(** ** The resolver *)




(** C3.  A dry run leaves the world (disk and standard output) as it was and
    ends as [would_delete_all] says: with the candidates of every group, in
    order, or with the exception of the first group that has no keep path.
    With one of the four policies and no empty group it does return a
    list. *)
Theorem dry_run_changes_nothing duplicates keep w :
  remove_duplicates duplicates keep true w = (w, would_delete_all keep duplicates) /\
  (keep ∈ policies -> Forall (fun g => snd g <> []) duplicates ->
   exists cands, would_delete_all keep duplicates = Returned cands).
Proof.
  split.
  - unfold remove_duplicates. rewrite groups_loop_dry.
    by destruct (would_delete_all keep duplicates).
  - apply would_delete_all_total.
Qed.

(** C3 at [sample_groups]: nothing changes and the four candidates are
    reported. *)
Lemma dry_run_changes_nothing_witness :
  remove_duplicates sample_groups "first" true sample_world
    = (sample_world, Returned sample_candidates).
Proof.
  rewrite (proj1 (dry_run_changes_nothing sample_groups "first" sample_world)).
  vm_compute. reflexivity.
Defined.

(** C4.  When the dry run reports [cands], the real run returns too, and
    what it does is what [attempt] records for [cands], one record per
    candidate in order: the returned list holds the paths recorded
    [deleted], the failure lines on standard output are those recorded
    [failed], and no failure stops the loop.  So a path is reported by the
    dry run exactly when the real run returns it or prints its failure. *)
Theorem real_run_reports_every_candidate duplicates keep w cands :
  snd (remove_duplicates duplicates keep true w) = Returned cands ->
  let dk := fst (attempt cands (disk w)) in
  let rs := snd (attempt cands (disk w)) in
  remove_duplicates duplicates keep false w
    = (World dk (stdout w ++ failure_lines rs), Returned (deleted_paths rs)) /\
  map fst rs = cands /\
  forall p, p ∈ cands <->
    p ∈ deleted_paths rs \/ exists e, Failed_to_delete p e ∈ failure_lines rs.
Proof.
  unfold remove_duplicates. rewrite groups_loop_dry. simpl.
  destruct (would_delete_all keep duplicates) as [l|e] eqn:Hall; [|done].
  intros [= <-]. simpl.
  rewrite (groups_loop_real keep duplicates w [] l Hall).
  pose proof (attempt_paths l (disk w)) as Hp.
  pose proof (attempt_no_would_delete l (disk w)) as Hn.
  destruct (attempt l (disk w)) as [dk rs]. simpl in *.
  repeat split; [done|..].
  - rewrite <- Hp at 1. by apply records_split.
  - rewrite <- Hp at 1. by apply records_split.
Qed.

(** C4 at [sample_groups]: two candidates are deleted, the protected one and
    the missing one are printed as failures. *)
Lemma real_run_reports_every_candidate_witness :
  snd (remove_duplicates sample_groups "first" true sample_world)
    = Returned sample_candidates /\
  snd (remove_duplicates sample_groups "first" false sample_world)
    = Returned ["/data/sub/copy.txt"; "/data/backup/w.txt"] /\
  stdout (fst (remove_duplicates sample_groups "first" false sample_world))
    = [Failed_to_delete "/data/old/a.txt" PermissionError;
       Failed_to_delete "/data/gone.txt" FileNotFoundError].
Proof.
  assert (H : snd (remove_duplicates sample_groups "first" true sample_world)
              = Returned sample_candidates) by (vm_compute; reflexivity).
  split; [exact H|].
  destruct (real_run_reports_every_candidate sample_groups "first" sample_world
              sample_candidates H) as (Hrun & _ & _).
  rewrite Hrun. split; vm_compute; reflexivity.
Defined.

(** C7, as the specification states it, fails on the empty mapping: the
    loop body that checks [keep] never runs and the call returns. *)
Lemma invalid_keep_on_empty_mapping_returns :
  ~ fails_on_invalid_keep [] "newest" false sample_world.
Proof.
  intros H. destruct (H newest_not_a_policy) as [e He]. discriminate He.
Qed.

(** C7, amended.  With a keep value outside the four policies nothing is
    deleted or printed; the call raises [ValueError] at the first group of a
    non-empty mapping and returns the empty list on the empty mapping. *)
Theorem invalid_keep_deletes_nothing duplicates keep dry_run w :
  keep ∉ policies ->
  remove_duplicates duplicates keep dry_run w =
  (w, match duplicates with
      | [] => Returned []
      | _ :: _ => Raised (ValueError ("Invalid keep strategy: " +:+ keep))
      end).
Proof.
  intros Hk. unfold remove_duplicates. destruct duplicates as [|[h paths] rest]; [done|].
  simpl. by rewrite (select_keep_invalid keep paths Hk).
Qed.

(** C7, amended, at [sample_groups] in a real run. *)
Lemma invalid_keep_deletes_nothing_witness :
  ("newest" ∉ policies) /\
  remove_duplicates sample_groups "newest" false sample_world
    = (sample_world, Raised (ValueError "Invalid keep strategy: newest")).
Proof.
  split; [exact newest_not_a_policy|].
  exact (invalid_keep_deletes_nothing sample_groups "newest" false sample_world
           newest_not_a_policy).
Defined.

(** C10.  A call that leaves [dry_run] out is the dry run: the world is
    unchanged and only the candidates are reported. *)
Theorem default_call_is_a_dry_run duplicates keep w :
  remove_duplicates_call duplicates keep None w
    = remove_duplicates duplicates (default keep_default keep) true w /\
  remove_duplicates_call duplicates keep None w
    = (w, would_delete_all (default keep_default keep) duplicates).
Proof.
  unfold remove_duplicates_call, remove_duplicates. simpl. split; [done|].
  rewrite groups_loop_dry. by destruct (would_delete_all _ duplicates).
Qed.

(** C10 at [sample_groups], with [keep] left out as well. *)
Lemma default_call_is_a_dry_run_witness :
  remove_duplicates_call sample_groups None None sample_world
    = (sample_world, Returned sample_candidates).
Proof.
  rewrite (proj2 (default_call_is_a_dry_run sample_groups None sample_world)).
  vm_compute. reflexivity.
Defined.

(** ** The scanner *)

(** C2, as the specification states it, fails on an MD5 collision: two files
    of 128 bytes that differ in six bytes are returned as one group. *)
Lemma md5_collision_is_grouped :
  ~ byte_identical_groups organizer (mount "/data" collision_tree) None 100.
Proof.
  intros H.
  destruct (H [("79054025255fb1a26e4bc422aef54eb4", ["/data/a.bin"; "/data/b.bin"])]
              "79054025255fb1a26e4bc422aef54eb4" ["/data/a.bin"; "/data/b.bin"])
    as [_ Hsame]; [vm_compute; reflexivity|left|].
  apply collision_differs.
  apply (Hsame "/data/a.bin" "/data/b.bin"
           (Regular (Ok 128) (Ok collision_a)) (Regular (Ok 128) (Ok collision_b))).
  - left.
  - right. left.
  - left.
  - right. left.
  - reflexivity.
  - reflexivity.
Qed.

(** C2, amended.  Every returned group has at least two members, and every
    member is a walked path whose content, as read when it was hashed, has
    the MD5 digest that keys the group.  Members are byte-identical whenever
    MD5 does not collide on the contents of the walked files. *)
Theorem groups_share_a_digest self fs directory min_size r h paths :
  find_duplicates self fs directory min_size = Returned r ->
  (h, paths) ∈ r ->
  (2 <= length paths)%nat /\
  (forall p, p ∈ paths ->
     exists n c, (p, n) ∈ walk self fs directory /\
       open_rb n = Ok c /\ MD5.hexdigest c = h) /\
  (NoDup (map fst (walk self fs directory)) ->
   collision_free (walk self fs directory) ->
   forall p q np nq cp cq, p ∈ paths -> q ∈ paths ->
     (p, np) ∈ walk self fs directory -> (q, nq) ∈ walk self fs directory ->
     open_rb np = Ok cp -> open_rb nq = Ok cq -> cp = cq).
Proof.
  intros Hr Hin. split; [|split].
  - apply find_duplicates_returned in Hr as (_ & _ & ->).
    apply list_elem_of_In, filter_In in Hin as [_ Hlen].
    simpl in Hlen. apply Nat.ltb_lt in Hlen. lia.
  - intros p Hp.
    destruct (find_duplicates_sound _ _ _ _ _ _ _ _ Hr Hin Hp)
      as (_ & n & size & c & Hw & _ & _ & _ & Hc & Hd).
    by exists n, c.
  - intros Hnd Hcf p q np nq cp cq Hp Hq Hwp Hwq Hcp Hcq.
    destruct (find_duplicates_sound _ _ _ _ _ _ _ _ Hr Hin Hp)
      as (_ & np' & _ & cp' & Hwp' & _ & _ & _ & Hcp' & Hdp).
    destruct (find_duplicates_sound _ _ _ _ _ _ _ _ Hr Hin Hq)
      as (_ & nq' & _ & cq' & Hwq' & _ & _ & _ & Hcq' & Hdq).
    assert (np = np') as <- by eauto using NoDup_fst_inj.
    assert (nq = nq') as <- by eauto using NoDup_fst_inj.
    rewrite Hcp in Hcp'. injection Hcp' as <-.
    rewrite Hcq in Hcq'. injection Hcq' as <-.
    apply (Hcf p np cp q nq cq Hwp Hwq Hcp Hcq). by rewrite Hdp, Hdq.
Qed.

(** C2, amended, at [sample_tree]. *)
Lemma groups_share_a_digest_witness :
  find_duplicates organizer (mount "/data" sample_tree) None 3 = Returned sample_result /\
  (hello_digest, ["/data/a.txt"; "/data/sub/copy.txt"]) ∈ sample_result /\
  (2 <= length ["/data/a.txt"; "/data/sub/copy.txt"])%nat /\
  forall p, p ∈ ["/data/a.txt"; "/data/sub/copy.txt"] ->
    exists n c, (p, n) ∈ walk organizer (mount "/data" sample_tree) None /\
      open_rb n = Ok c /\ MD5.hexdigest c = hello_digest.
Proof.
  assert (H1 : find_duplicates organizer (mount "/data" sample_tree) None 3
               = Returned sample_result) by exact sample_scan.
  assert (H2 : (hello_digest, ["/data/a.txt"; "/data/sub/copy.txt"]) ∈ sample_result)
    by (unfold sample_result; left).
  split; [exact H1|]. split; [exact H2|].
  destruct (groups_share_a_digest organizer (mount "/data" sample_tree) None 3
              sample_result hello_digest ["/data/a.txt"; "/data/sub/copy.txt"] H1 H2)
    as (Hlen & Hdig & _).
  split; [exact Hlen|exact Hdig].
Defined.







(** C8.  In a tree whose walked paths are distinct, a file for which [stat]
    reports a size below [min_size] is in no returned group. *)
Theorem small_files_never_grouped self fs directory min_size r p n size h paths :
  NoDup (map fst (walk self fs directory)) ->
  find_duplicates self fs directory min_size = Returned r ->
  (p, n) ∈ walk self fs directory ->
  stat_st_size n = Ok size -> size < min_size ->
  (h, paths) ∈ r -> p ∉ paths.
Proof.
  intros Hnd Hr Hw Hs Hlt Hin Hp.
  destruct (find_duplicates_sound _ _ _ _ _ _ _ _ Hr Hin Hp)
    as (_ & n' & size' & c & Hw' & _ & Hs' & Hmin & _).
  assert (n = n') as <- by eauto using NoDup_fst_inj.
  rewrite Hs in Hs'. injection Hs' as <-. lia.
Qed.

(** C8 at [sample_tree] with [min_size = 3]: the two-byte file is left out. *)
Lemma small_files_never_grouped_witness :
  NoDup (map fst (walk organizer (mount "/data" sample_tree) None)) /\
  find_duplicates organizer (mount "/data" sample_tree) None 3 = Returned sample_result /\
  ("/data/tiny", file "hi") ∈ walk organizer (mount "/data" sample_tree) None /\
  stat_st_size (file "hi") = Ok 2 /\ 2 < 3 /\
  (hello_digest, ["/data/a.txt"; "/data/sub/copy.txt"]) ∈ sample_result /\
  ("/data/tiny" ∉ ["/data/a.txt"; "/data/sub/copy.txt"]).
Proof.
  assert (H1 : find_duplicates organizer (mount "/data" sample_tree) None 3
               = Returned sample_result) by exact sample_scan.
  assert (H2 : ("/data/tiny", file "hi") ∈ walk organizer (mount "/data" sample_tree) None)
    by (right; right; left).
  assert (H3 : stat_st_size (file "hi") = Ok 2) by reflexivity.
  assert (H4 : 2 < 3) by lia.
  assert (H5 : (hello_digest, ["/data/a.txt"; "/data/sub/copy.txt"]) ∈ sample_result)
    by left.
  split; [exact sample_walk_NoDup|]. split; [exact H1|]. split; [exact H2|].
  split; [exact H3|]. split; [exact H4|]. split; [exact H5|].
  exact (small_files_never_grouped organizer (mount "/data" sample_tree) None 3
           sample_result "/data/tiny" (file "hi") 2 hello_digest
           ["/data/a.txt"; "/data/sub/copy.txt"] sample_walk_NoDup H1 H2 H3 H4 H5).
Defined.

(** C9, as the specification states it, fails when [stat] announces a size
    that the read does not deliver: [hash_map] is keyed by the digest alone,
    so equal contents from two size buckets end up in one group. *)
Lemma stale_sizes_share_a_group :
  ~ one_size_per_group organizer (mount "/data" stale_tree) None 1.
Proof.
  intros H.
  assert (Heq : 4096 = 2).
  { apply (H [("ed2b5c0139cec8ad2873829dc1117d50",
               ["/data/enabled"; "/data/defrag"; "/data/a.txt"; "/data/b.txt"])]
             "ed2b5c0139cec8ad2873829dc1117d50"
             ["/data/enabled"; "/data/defrag"; "/data/a.txt"; "/data/b.txt"]
             "/data/enabled" "/data/a.txt"
             (Regular (Ok 4096) (Ok (list_byte_of_string "on"))) (file "on")).
    - vm_compute. reflexivity.
    - left.
    - left.
    - right. right. left.
    - left.
    - right. right. left.
    - reflexivity.
    - reflexivity. }
  discriminate Heq.
Qed.

(** C9, amended.  In a tree whose walked paths are distinct, where every
    file delivers as many bytes as [stat] announced and MD5 does not collide
    on the contents, no returned group holds two files of different size. *)
Theorem consistent_groups_have_one_size self fs directory min_size :
  NoDup (map fst (walk self fs directory)) ->
  sizes_match_contents (walk self fs directory) ->
  collision_free (walk self fs directory) ->
  one_size_per_group self fs directory min_size.
Proof.
  intros Hnd Hsz Hcf r h paths p q np nq sp sq Hr Hin Hp Hq Hwp Hwq Hsp Hsq.
  destruct (find_duplicates_sound _ _ _ _ _ _ _ _ Hr Hin Hp)
    as (_ & np' & sp' & cp & Hwp' & _ & Hsp' & _ & Hcp & Hdp).
  destruct (find_duplicates_sound _ _ _ _ _ _ _ _ Hr Hin Hq)
    as (_ & nq' & sq' & cq & Hwq' & _ & Hsq' & _ & Hcq & Hdq).
  assert (np = np') as <- by eauto using NoDup_fst_inj.
  assert (nq = nq') as <- by eauto using NoDup_fst_inj.
  assert (cp = cq) as <-.
  { apply (Hcf p np cp q nq cq); try done. by rewrite Hdp, Hdq. }
  rewrite <- (Hsz p np sp cp Hwp Hsp Hcp). by apply (Hsz q nq sq cp).
Qed.

(** C9, amended, at [sample_tree]. *)
Lemma consistent_groups_have_one_size_witness :
  NoDup (map fst (walk organizer (mount "/data" sample_tree) None)) /\
  sizes_match_contents (walk organizer (mount "/data" sample_tree) None) /\
  collision_free (walk organizer (mount "/data" sample_tree) None) /\
  one_size_per_group organizer (mount "/data" sample_tree) None 3.
Proof.
  split; [exact sample_walk_NoDup|]. split; [exact sample_sizes_match|].
  split; [exact sample_collision_free|].
  exact (consistent_groups_have_one_size organizer (mount "/data" sample_tree) None 3
           sample_walk_NoDup sample_sizes_match sample_collision_free).
Defined.

(** * Lemmas for the rest of the class *)

(** ** Hashing and keep policies *)

Lemma hash_loop_zero f hasher : hash_loop 0 f hasher = hasher.
Proof. by simp hash_loop. Qed.

Lemma min_from_spec best rest :
  exists l1 l2, best :: rest = l1 ++ min_from best rest :: l2 /\
    (forall p, p ∈ l1 -> String.length (min_from best rest) < String.length p)%nat /\
    (forall p, p ∈ l2 -> String.length (min_from best rest) <= String.length p)%nat.
Proof.
  (* generalised: prefix already scanned *)
  assert (G : forall rest pre best post,
    (forall p, p ∈ pre -> String.length best < String.length p)%nat ->
    (forall p, p ∈ post -> String.length best <= String.length p)%nat ->
    exists l1 l2, pre ++ best :: post ++ rest = l1 ++ min_from best rest :: l2 /\
      (forall p, p ∈ l1 -> String.length (min_from best rest) < String.length p)%nat /\
      (forall p, p ∈ l2 -> String.length (min_from best rest) <= String.length p)%nat).
  { clear. induction rest as [|x rest IH]; intros pre best post Hpre Hpost; simpl.
    - exists pre, post. by rewrite app_nil_r.
    - destruct (Nat.ltb_spec (String.length x) (String.length best)) as [Hlt|Hge].
      + destruct (IH (pre ++ best :: post) x []) as (l1 & l2 & Heq & H1 & H2).
        * intros p [Hp|Hp]%elem_of_app; [specialize (Hpre p Hp); lia|].
          apply elem_of_cons in Hp as [->|Hp]; [lia|]. specialize (Hpost p Hp). lia.
        * by intros p Hp%elem_of_nil.
        * exists l1, l2. split; [|done]. rewrite <- Heq. simpl.
          by rewrite <- !app_assoc.
      + destruct (IH pre best (post ++ [x])) as (l1 & l2 & Heq & H1 & H2).
        * done.
        * intros p [Hp|Hp]%elem_of_app; [by apply Hpost|].
          apply list_elem_of_singleton in Hp as ->. lia.
        * exists l1, l2. split; [|done]. rewrite <- Heq. by rewrite <- !app_assoc. }
  destruct (G rest [] best []) as (l1 & l2 & Heq & H); try by intros p Hp%elem_of_nil.
  exists l1, l2. done.
Qed.

Lemma max_from_spec best rest :
  exists l1 l2, best :: rest = l1 ++ max_from best rest :: l2 /\
    (forall p, p ∈ l1 -> String.length p < String.length (max_from best rest))%nat /\
    (forall p, p ∈ l2 -> String.length p <= String.length (max_from best rest))%nat.
Proof.
  assert (G : forall rest pre best post,
    (forall p, p ∈ pre -> String.length p < String.length best)%nat ->
    (forall p, p ∈ post -> String.length p <= String.length best)%nat ->
    exists l1 l2, pre ++ best :: post ++ rest = l1 ++ max_from best rest :: l2 /\
      (forall p, p ∈ l1 -> String.length p < String.length (max_from best rest))%nat /\
      (forall p, p ∈ l2 -> String.length p <= String.length (max_from best rest))%nat).
  { clear. induction rest as [|x rest IH]; intros pre best post Hpre Hpost; simpl.
    - exists pre, post. by rewrite app_nil_r.
    - destruct (Nat.ltb_spec (String.length best) (String.length x)) as [Hlt|Hge].
      + destruct (IH (pre ++ best :: post) x []) as (l1 & l2 & Heq & H1 & H2).
        * intros p [Hp|Hp]%elem_of_app; [specialize (Hpre p Hp); lia|].
          apply elem_of_cons in Hp as [->|Hp]; [lia|]. specialize (Hpost p Hp). lia.
        * by intros p Hp%elem_of_nil.
        * exists l1, l2. split; [|done]. rewrite <- Heq. simpl.
          by rewrite <- !app_assoc.
      + destruct (IH pre best (post ++ [x])) as (l1 & l2 & Heq & H1 & H2).
        * done.
        * intros p [Hp|Hp]%elem_of_app; [by apply Hpost|].
          apply list_elem_of_singleton in Hp as ->. lia.
        * exists l1, l2. split; [|done]. rewrite <- Heq. by rewrite <- !app_assoc. }
  destruct (G rest [] best []) as (l1 & l2 & Heq & H); try by intros p Hp%elem_of_nil.
  exists l1, l2. done.
Qed.

(** ** Completeness of the scan *)

Section dict_more.
Context {K V : Type} `{EqDecision K}.
Implicit Types (d : dict K (list V)).

Lemma dd_append_keys k v d :
  NoDup (map fst d) -> NoDup (map fst (dd_append k v d)).
Proof.
  induction d as [|[k' vs] d IH]; simpl; intros Hnd.
  - apply NoDup_singleton.
  - apply NoDup_cons in Hnd as [Hk Hnd].
    destruct (decide (k = k')) as [->|Hne]; simpl.
    + by apply NoDup_cons.
    + apply NoDup_cons. split; [|by apply IH].
      intros Hin. apply Hk. clear -Hin Hne.
      induction d as [|[k2 vs2] d IH]; simpl in *.
      * apply list_elem_of_singleton in Hin. congruence.
      * destruct (decide (k = k2)) as [->|Hne2]; simpl in *; [done|].
        apply elem_of_cons in Hin as [->|Hin]; [by left|right; by apply IH].
Qed.

Lemma dd_append_listed k v d : listed (dd_append k v d) ≡ₚ v :: listed d.
Proof.
  induction d as [|[k' vs] d IH]; simpl; [done|].
  destruct (decide (k = k')) as [->|Hne]; simpl.
  - rewrite <- app_assoc. simpl. by rewrite <- Permutation_middle.
  - rewrite IH. by rewrite <- Permutation_middle.
Qed.

Lemma elem_of_listed v d : v ∈ listed d <-> exists k, dmem k v d.
Proof.
  unfold dmem. induction d as [|[k' vs] d IH]; simpl.
  - split; [by intros ?%elem_of_nil|]. intros (k & vs & H%elem_of_nil & _). done.
  - rewrite elem_of_app, IH. split.
    + intros [Hv|(k & vs' & Hin & Hv)].
      * exists k', vs. split; [by left|done].
      * exists k, vs'. split; [by right|done].
    + intros (k & vs' & Hin & Hv). apply elem_of_cons in Hin as [[= -> ->]|Hin].
      * by left.
      * right. by exists k, vs'.
Qed.

Lemma dmem_unique_list k v1 v2 d :
  NoDup (map fst d) -> dmem k v1 d -> dmem k v2 d ->
  exists vs, (k, vs) ∈ d /\ v1 ∈ vs /\ v2 ∈ vs.
Proof.
  intros Hnd (vs1 & H1 & Hv1) (vs2 & H2 & Hv2).
  assert (vs1 = vs2) as <- by eauto using NoDup_fst_inj.
  by exists vs1.
Qed.
End dict_more.

Lemma two_members_length {A} (l : list A) x y :
  x ∈ l -> y ∈ l -> x <> y -> (2 <= length l)%nat.
Proof.
  destruct l as [|a [|b l]]; simpl; intros Hx Hy Hne; [|exfalso|lia].
  - by apply elem_of_nil in Hx.
  - apply list_elem_of_singleton in Hx, Hy. congruence.
Qed.

Lemma size_step_mono min_size size_map e size x :
  dmem size x size_map -> dmem size x (quiet (size_step min_size) size_map e).
Proof.
  intros H. unfold quiet, size_step. destruct (is_file (snd e)) as [[|]|]; [|done..].
  destruct (stat_st_size (snd e)) as [s|]; [|done].
  destruct (min_size <=? s); [|done]. apply dmem_dd_append. by right.
Qed.

Lemma size_fold_mono min_size entries acc size x :
  dmem size x acc -> dmem size x (fold_left (quiet (size_step min_size)) entries acc).
Proof.
  revert acc. induction entries as [|e entries IH]; intros acc H; simpl; [done|].
  apply IH. by apply size_step_mono.
Qed.

Lemma size_pass_complete min_size entries e size :
  e ∈ entries -> is_file (snd e) = Ok true -> stat_st_size (snd e) = Ok size ->
  min_size <= size -> dmem size e (size_map_of min_size entries).
Proof.
  unfold size_map_of. generalize ([] : dict Z (list entry)).
  induction entries as [|e' entries IH]; intros acc Hin Hf Hs Hm; simpl.
  - by apply elem_of_nil in Hin.
  - apply elem_of_cons in Hin as [<-|Hin]; [|by apply IH].
    apply size_fold_mono. unfold quiet, size_step. rewrite Hf, Hs.
    destruct (Z.leb_spec min_size size); [|lia]. apply dmem_dd_append. by left.
Qed.

Lemma size_step_keys min_size size_map e :
  NoDup (map fst size_map) -> NoDup (map fst (quiet (size_step min_size) size_map e)).
Proof.
  intros H. unfold quiet, size_step. destruct (is_file (snd e)) as [[|]|]; [|done..].
  destruct (stat_st_size (snd e)) as [s|]; [|done].
  destruct (min_size <=? s); [|done]. by apply dd_append_keys.
Qed.

Lemma size_pass_keys min_size entries : NoDup (map fst (size_map_of min_size entries)).
Proof.
  unfold size_map_of.
  assert (G : forall acc, NoDup (map fst acc) ->
    NoDup (map fst (fold_left (quiet (size_step min_size)) entries acc))).
  { induction entries as [|e entries IH]; intros acc H; simpl; [done|].
    apply IH. by apply size_step_keys. }
  apply G. constructor.
Qed.

Lemma hash_step_mono hash_map e h p :
  dmem h p hash_map -> dmem h p (hash_step hash_map e).
Proof.
  intros H. unfold hash_step. destruct (_hash_file _ _); [|done].
  apply dmem_dd_append. by right.
Qed.

Lemma hash_fold_mono files hash_map h p :
  dmem h p hash_map -> dmem h p (fold_left hash_step files hash_map).
Proof.
  revert hash_map. induction files as [|e files IH]; intros hm H; simpl; [done|].
  apply IH. by apply hash_step_mono.
Qed.

Lemma bucket_step_mono hash_map item h p :
  dmem h p hash_map -> dmem h p (bucket_step hash_map item).
Proof.
  intros H. unfold bucket_step. destruct (1 <? length (snd item))%nat; [|done].
  by apply hash_fold_mono.
Qed.

Lemma bucket_fold_mono size_map hash_map h p :
  dmem h p hash_map -> dmem h p (fold_left bucket_step size_map hash_map).
Proof.
  revert hash_map. induction size_map as [|b size_map IH]; intros hm H; simpl; [done|].
  apply IH. by apply bucket_step_mono.
Qed.

Lemma hash_fold_complete files hash_map e h :
  e ∈ files -> _hash_file (snd e) chunk_size_default = Ok h ->
  dmem h (fst e) (fold_left hash_step files hash_map).
Proof.
  revert hash_map. induction files as [|e' files IH]; intros hm Hin Hh; simpl.
  - by apply elem_of_nil in Hin.
  - apply elem_of_cons in Hin as [<-|Hin]; [|by apply IH].
    apply hash_fold_mono. unfold hash_step. rewrite Hh. apply dmem_dd_append. by left.
Qed.

Lemma hash_pass_complete size_map size files e h :
  (size, files) ∈ size_map -> (2 <= length files)%nat -> e ∈ files ->
  _hash_file (snd e) chunk_size_default = Ok h ->
  dmem h (fst e) (hash_pass size_map).
Proof.
  unfold hash_pass. generalize ([] : dict string (list string)).
  induction size_map as [|b size_map IH]; intros acc Hin Hlen He Hh; simpl.
  - by apply elem_of_nil in Hin.
  - apply elem_of_cons in Hin as [<-|Hin]; [|by eapply IH].
    apply bucket_fold_mono. unfold bucket_step. simpl.
    destruct (Nat.ltb_spec 1 (length files)); [|lia].
    by apply hash_fold_complete.
Qed.

Lemma hash_pass_keys size_map : NoDup (map fst (hash_pass size_map)).
Proof.
  unfold hash_pass.
  assert (Hs : forall (bucket : list entry) acc, NoDup (map fst acc) ->
    NoDup (map fst (fold_left hash_step bucket acc))).
  { intros bucket. induction bucket as [|e bucket IH]; intros acc H; simpl; [done|].
    apply IH. unfold hash_step. destruct (_hash_file _ _); [|done].
    by apply dd_append_keys. }
  assert (G : forall acc, NoDup (map fst acc) ->
    NoDup (map fst (fold_left bucket_step size_map acc))).
  { induction size_map as [|b size_map IH]; intros acc H; simpl; [done|].
    apply IH. unfold bucket_step. destruct (1 <? length (snd b))%nat; [|done].
    by apply Hs. }
  apply G. constructor.
Qed.

(** ** Disjointness of the groups *)

Lemma NoDup_fst_filter {A B} (f : A * B -> bool) (l : list (A * B)) :
  NoDup (map fst l) -> NoDup (map fst (List.filter f l)).
Proof.
  induction l as [|x l IH]; simpl; intros Hnd; [done|].
  apply NoDup_cons in Hnd as [Hx Hnd]. destruct (f x); simpl; [|by apply IH].
  apply NoDup_cons. split; [|by apply IH].
  intros Hin. apply Hx. apply list_elem_of_fmap in Hin as (y & -> & Hy).
  apply list_elem_of_In, filter_In in Hy as [Hy _]. apply list_elem_of_In in Hy.
  by apply list_elem_of_fmap_2.
Qed.

Lemma NoDup_filter_bool {A} (f : A -> bool) (l : list A) :
  NoDup l -> NoDup (List.filter f l).
Proof.
  induction l as [|x l IH]; simpl; intros Hnd; [done|].
  apply NoDup_cons in Hnd as [Hx Hnd]. destruct (f x); [|by apply IH].
  apply NoDup_cons. split; [|by apply IH].
  intros Hin%list_elem_of_In%filter_In. apply Hx, list_elem_of_In. tauto.
Qed.

Lemma size_fold_listed min_size entries acc :
  listed (fold_left (quiet (size_step min_size)) entries acc)
  ≡ₚ listed acc ++ List.filter (sized min_size) entries.
Proof.
  revert acc. induction entries as [|e entries IH]; intros acc; simpl.
  - by rewrite app_nil_r.
  - rewrite IH. unfold quiet, size_step, sized at 2, a_file.
    destruct (is_file (snd e)) as [[|]|]; simpl; [|done..].
    destruct (stat_st_size (snd e)) as [s|]; [|done].
    destruct (min_size <=? s); [|done].
    rewrite dd_append_listed. by rewrite <- Permutation_middle.
Qed.

Lemma hash_fold_listed files acc :
  listed (fold_left hash_step files acc)
  ≡ₚ listed acc ++ map fst (List.filter readable files).
Proof.
  revert acc. induction files as [|e files IH]; intros acc; simpl.
  - by rewrite app_nil_r.
  - rewrite IH. unfold hash_step, readable at 2, _hash_file.
    destruct (open_rb (snd e)) as [c|]; simpl; [|done].
    rewrite dd_append_listed. by rewrite <- Permutation_middle.
Qed.

Lemma bucket_fold_listed size_map acc :
  listed (fold_left bucket_step size_map acc)
  ≡ₚ listed acc ++ map fst (List.filter readable (hashed size_map)).
Proof.
  revert acc. induction size_map as [|[s files] size_map IH]; intros acc; simpl.
  - by rewrite app_nil_r.
  - rewrite IH. unfold bucket_step. simpl.
    destruct (1 <? length files)%nat; simpl; [|done].
    rewrite hash_fold_listed, List.filter_app, map_app. by rewrite <- app_assoc.
Qed.

Lemma hashed_NoDup (size_map : dict Z (list entry)) :
  NoDup (map fst (listed size_map)) -> NoDup (map fst (hashed size_map)).
Proof.
  induction size_map as [|[s files] size_map IH]; simpl; [done|].
  rewrite !map_app. intros (H1 & H2 & H3)%NoDup_app.
  destruct (1 <? length files)%nat; simpl; [|by apply IH].
  apply NoDup_app. split; [done|]. split; [|by apply IH].
  intros x Hx Hin. apply (H2 x Hx).
  clear -Hin. induction size_map as [|[s' files'] size_map IH]; simpl in *; [done|].
  rewrite map_app, elem_of_app in *.
  destruct Hin as [Hin|Hin]; [|right; by apply IH].
  left. by destruct (1 <? length files')%nat; [|apply elem_of_nil in Hin].
Qed.

Lemma filter_listed_NoDup {K V} (f : K * list V -> bool) (d : dict K (list V)) :
  NoDup (listed d) -> NoDup (listed (List.filter f d)).
Proof.
  induction d as [|[k vs] d IH]; simpl; [done|].
  intros (H1 & H2 & H3)%NoDup_app. destruct (f (k, vs)); simpl; [|by apply IH].
  apply NoDup_app. split; [done|]. split; [|by apply IH].
  intros x Hx Hin. apply (H2 x Hx).
  clear -Hin. induction d as [|[k' vs'] d IH]; simpl in *; [done|].
  destruct (f (k', vs')); simpl in *; rewrite ?elem_of_app in *; tauto.
Qed.

Lemma scan_listed_NoDup (entries : list entry) min_size :
  NoDup (map fst entries) ->
  NoDup (listed (List.filter (fun item : string * list string =>
                                (1 <? length (snd item))%nat)
                   (hash_pass (size_map_of min_size entries)))).
Proof.
  intros Hnd. apply filter_listed_NoDup. unfold hash_pass.
  rewrite bucket_fold_listed. simpl.
  apply NoDup_fst_filter, hashed_NoDup.
  unfold size_map_of. rewrite size_fold_listed. simpl.
  by apply NoDup_fst_filter.
Qed.

Lemma scan_groups_nonempty self fs directory min_size r h paths :
  find_duplicates self fs directory min_size = Returned r ->
  (h, paths) ∈ r -> paths <> [].
Proof.
  intros (_ & _ & ->)%find_duplicates_returned Hin.
  apply list_elem_of_In, filter_In in Hin as [_ Hlen]. simpl in Hlen.
  apply Nat.ltb_lt in Hlen. intros ->. simpl in Hlen. lia.
Qed.

(** ** Accounting of a real run *)

Lemma select_keep_in keep paths to_keep :
  select_keep keep paths = Returned to_keep -> to_keep ∈ paths.
Proof.
  unfold select_keep.
  destruct (String.eqb keep "first").
  { destruct paths; [done|]. intros [= <-]. by left. }
  destruct (String.eqb keep "last").
  { destruct (last paths) eqn:Hl; [|done]. intros [= <-]. by apply last_Some_elem_of. }
  destruct (String.eqb keep "shortest_path").
  { destruct paths; [done|]. intros [= <-]. apply min_from_in. }
  destruct (String.eqb keep "longest_path").
  { destruct paths; [done|]. intros [= <-]. apply max_from_in. }
  done.
Qed.

Lemma select_keep_empty keep : exists e, select_keep keep [] = Raised e.
Proof.
  unfold select_keep. simpl.
  repeat (match goal with |- context [if ?b then _ else _] => destruct b end;
          [by eexists|]).
  by eexists.
Qed.


Lemma candidates_origin keep d cands p :
  would_delete_all keep d = Returned cands -> p ∈ cands ->
  exists h paths k, (h, paths) ∈ d /\ select_keep keep paths = Returned k /\
    p ∈ paths /\ p <> k.
Proof.
  revert cands. induction d as [|[h paths] d IH]; intros cands; simpl.
  - intros [= <-] Hp. by apply elem_of_nil in Hp.
  - destruct (select_keep keep paths) as [k|e] eqn:Hk; [|done].
    destruct (would_delete_all keep d) as [l|e]; [|done].
    intros [= <-] [Hp|Hp]%elem_of_app.
    + apply candidates_spec in Hp as [Hp Hne].
      exists h, paths, k. split; [by left|done].
    + destruct (IH l eq_refl Hp) as (h' & paths' & k' & Hin & ?).
      exists h', paths', k'. split; [by right|done].
Qed.




Lemma listed_unique_group {K V} (d : dict K (list V)) k1 vs1 k2 vs2 x :
  NoDup (listed d) -> (k1, vs1) ∈ d -> (k2, vs2) ∈ d -> x ∈ vs1 -> x ∈ vs2 ->
  vs1 = vs2.
Proof.
  induction d as [|[k vs] d IH]; simpl; intros Hnd H1 H2 Hx1 Hx2.
  - by apply elem_of_nil in H1.
  - apply NoDup_app in Hnd as (Hvs & Hdis & Hnd).
    assert (Hl : forall k' vs', (k', vs') ∈ d -> x ∈ vs' -> x ∈ listed d).
    { intros k' vs' Hin Hx. apply elem_of_listed. exists k', vs'. done. }
    apply elem_of_cons in H1 as [E1|H1]; apply elem_of_cons in H2 as [E2|H2].
    + congruence.
    + injection E1 as -> ->. exfalso. eapply Hdis; eauto.
    + injection E2 as -> ->. exfalso. eapply Hdis; eauto.
    + by apply IH.
Qed.

Lemma keep_not_among_candidates duplicates keep cands h paths to_keep :
  NoDup (listed duplicates) ->
  would_delete_all keep duplicates = Returned cands ->
  (h, paths) ∈ duplicates -> select_keep keep paths = Returned to_keep ->
  to_keep ∉ cands.
Proof.
  intros Hnd Hc Hin Hsel Hcand.
  destruct (candidates_origin _ _ _ _ Hc Hcand)
    as (h' & paths' & k' & Hin' & Hsel' & Hp & Hne).
  assert (paths = paths').
  { apply (listed_unique_group duplicates h paths h' paths' to_keep); try done.
    by apply select_keep_in with keep. }
  subst paths'. congruence.
Qed.

Lemma survives_attempt cands d p :
  p ∉ cands -> p ∈ files d -> p ∈ files (fst (attempt cands d)).
Proof.
  intros Hc Hf. apply attempt_files. split; [done|].
  intros Hd%deleted_paths_sub. by rewrite attempt_paths in Hd.
Qed.

(** ** File categories *)

Lemma str_in_spec x l : str_in x l = true <-> x ∈ l.
Proof.
  unfold str_in. rewrite existsb_exists. split.
  - intros (y & Hy & ->%String.eqb_eq). by apply list_elem_of_In.
  - intros H. exists x. split; [by apply list_elem_of_In|apply String.eqb_refl].
Qed.

Lemma category_in_origin items extension :
  category_in items extension = "other" \/
  exists extensions, (category_in items extension, extensions) ∈ items /\
    extension ∈ extensions.
Proof.
  induction items as [|[c exts] items IH]; simpl; [by left|].
  destruct (str_in extension exts) eqn:Hin.
  - right. exists exts. split; [by left|by apply str_in_spec].
  - destruct IH as [?|(exts' & ? & ?)]; [by left|right].
    exists exts'. split; [by right|done].
Qed.

Lemma category_in_hit items category extensions extension :
  NoDup (listed items) -> (category, extensions) ∈ items ->
  extension ∈ extensions -> category_in items extension = category.
Proof.
  induction items as [|[c exts] items IH]; simpl; intros Hnd Hin Hx.
  - by apply elem_of_nil in Hin.
  - apply NoDup_app in Hnd as (_ & Hdis & Hnd).
    apply elem_of_cons in Hin as [[= -> ->]|Hin].
    + by rewrite (proj2 (str_in_spec _ _) Hx).
    + destruct (str_in extension exts) eqn:Hs; [|by apply IH].
      apply str_in_spec in Hs. exfalso. apply (Hdis _ Hs).
      clear -Hin Hx. induction items as [|[c' e'] items IH]; simpl.
      * by apply elem_of_nil in Hin.
      * apply elem_of_app. apply elem_of_cons in Hin as [[= <- <-]|Hin]; [by left|].
        right. by apply IH.
Qed.

Lemma category_in_miss items extension :
  extension ∉ listed items -> category_in items extension = "other".
Proof.
  induction items as [|[c exts] items IH]; simpl; [done|].
  rewrite elem_of_app. intros Hn.
  destruct (str_in extension exts) eqn:Hs; [apply str_in_spec in Hs; tauto|].
  apply IH. tauto.
Qed.

Lemma categories_keys : NoDup (map fst FILE_CATEGORIES).
Proof. apply (bool_decide_unpack _). vm_compute. exact I. Qed.

Lemma categories_disjoint : NoDup (listed FILE_CATEGORIES).
Proof. apply (bool_decide_unpack _). vm_compute. exact I. Qed.

Lemma other_is_no_key : "other" ∉ map fst FILE_CATEGORIES.
Proof. apply (bool_decide_unpack _). vm_compute. exact I. Qed.

Lemma empty_is_no_key : "" ∉ map fst FILE_CATEGORIES.
Proof. apply (bool_decide_unpack _). vm_compute. exact I. Qed.

Lemma key_of_item {A B} (l : list (A * B)) a b : (a, b) ∈ l -> a ∈ map fst l.
Proof. intros H. change a with (fst (a, b)). by apply list_elem_of_fmap_2. Qed.

Lemma get_category_nonempty extension : _get_category extension <> "".
Proof.
  unfold _get_category. intros He.
  destruct (category_in_origin FILE_CATEGORIES extension) as [Ho|(exts & Hin & Hx)].
  - rewrite He in Ho. discriminate Ho.
  - rewrite He in Hin. apply empty_is_no_key. by apply key_of_item with exts.
Qed.

(** ** Walks with names *)

(** Induction on a tree: a property of every directory follows from the
    property of the nodes it lists. *)
Lemma node_tree_ind (P : node -> Prop) :
  (forall size data, P (Regular size data)) ->
  P (Directory None) ->
  (forall children, Forall (fun c => P (snd c)) children -> P (Directory (Some children))) ->
  (forall hidden, P (SearchOnly hidden)) ->
  (forall t, P (Symlink t)) ->
  P Special ->
  P Denied ->
  forall n, P n.
Proof.
  intros Hreg Hnone Hdir Hso Hlink Hspec Hden.
  fix IH 1. intros [size data|[children|]|hidden|t| |].
  - apply Hreg.
  - apply Hdir. induction children as [|c children IHc]; constructor; [apply IH|exact IHc].
  - apply Hnone.
  - apply Hso.
  - apply Hlink.
  - apply Hspec.
  - apply Hden.
Qed.

Lemma rglob_named_entries dir n : map entry_of (rglob_named dir n) = rglob dir n.
Proof.
  revert dir. induction n as [| |children IH| | | |] using node_tree_ind;
    intros dir; try done.
  simpl. rewrite map_app, map_map. f_equal.
  induction IH as [|c children Hc _ IHc]; simpl; [done|].
  rewrite map_app, IHc. f_equal. destruct (snd c) as [|l| | | |]; try done; apply Hc.
Qed.

Lemma walk_named_entries self fs directory :
  map entry_of (walk_named self fs directory) = walk self fs directory.
Proof.
  unfold walk_named, walk, rglob_root_named, rglob_root.
  destruct (fs (scan_root self directory)) as [r|]; [|done].
  destruct (follow r) as [[| | | | |]|]; try done. apply rglob_named_entries.
Qed.

Lemma rglob_root_named_spec dir root :
  rglob_root_named dir root =
  if stat_refused root then Err PermissionError
  else Ok match rglob_root_named dir root with Ok entries => entries | Err _ => [] end.
Proof.
  unfold rglob_root_named, stat_refused. destruct root as [r|]; [|done].
  by destruct (follow r) as [[| | | | |]|].
Qed.







(** ** Name patterns *)












(** ** Empty directories and temporary files *)

Lemma empty_step_raises acc x :
  match is_dir (snd x) with
  | Err e => empty_step acc x = Err e
  | Ok _ => exists l, empty_step acc x = Ok l
  end.
Proof.
  unfold empty_step. destruct (is_dir (snd x)) as [[|]|e]; [|by eexists|done].
  destruct (iterdir (snd x)); by eexists.
Qed.

Lemma empty_fold entries acc :
  fold_left (quiet empty_step) entries acc
  = acc ++ map fst (List.filter (fun e : entry => lists_nothing (snd e)) entries).
Proof.
  revert acc. induction entries as [|e entries IH]; intros acc; simpl.
  - by rewrite app_nil_r.
  - rewrite IH. unfold quiet, empty_step, is_dir, iterdir, lists_nothing.
    destruct (follow (snd e)) as [[| [[|c children]|] | | | |]|]; simpl; try done.
    by rewrite <- app_assoc.
Qed.

(** [find_empty_dirs] ends with the exception of [rglob], with that of the
    first entry for which [is_dir()] raises, or with the walked paths that
    list nothing. *)
Lemma find_empty_dirs_spec self fs directory :
  find_empty_dirs self fs directory =
  if stat_refused (fs (scan_root self directory)) then Raised (Os PermissionError)
  else match first_raise is_dir (walk self fs directory) with
       | Some e => Raised (Os e)
       | None =>
           Returned (map fst (List.filter (fun e : entry => lists_nothing (snd e))
                                (walk self fs directory)))
       end.
Proof.
  unfold find_empty_dirs. rewrite rglob_root_spec. fold (walk self fs directory).
  destruct (stat_refused _); [done|].
  rewrite (for_each_first_raise empty_step is_dir) by (intros; apply empty_step_raises).
  destruct (first_raise is_dir _); [done|]. by rewrite empty_fold.
Qed.

Lemma rmdir_quietly_dirs d x p :
  refusing (rmdir_quietly d x) = refusing d /\
  (p ∈ dirs (rmdir_quietly d x) <-> p ∈ dirs d /\ (p <> x \/ p ∈ refusing d)).
Proof.
  unfold rmdir_quietly, os_rmdir.
  destruct (decide (x ∈ dirs d)) as [Hx|Hx]; [destruct (decide (x ∈ refusing d)) as [Hr|Hr]|];
    simpl; (split; [done|]).
  - split; [|tauto]. intros Hp. split; [done|].
    destruct (decide (p = x)) as [->|]; tauto.
  - rewrite elem_of_difference, elem_of_singleton. split; [tauto|].
    intros [Hp [Hne|Hr']]; [done|]. split; [done|]. intros ->. done.
  - split; [|tauto]. intros Hp. split; [done|]. left. intros ->. done.
Qed.

Lemma rmdir_fold l d p :
  refusing (fold_left rmdir_quietly l d) = refusing d /\
  (p ∈ dirs (fold_left rmdir_quietly l d) <-> p ∈ dirs d /\ (p ∉ l \/ p ∈ refusing d)).
Proof.
  revert d. induction l as [|x l IH]; intros d; simpl.
  - split; [done|]. split; [|tauto]. intros Hp. split; [done|]. left. apply not_elem_of_nil.
  - destruct (IH (rmdir_quietly d x)) as [Hr Hd].
    destruct (rmdir_quietly_dirs d x p) as [Hr1 Hd1].
    split; [congruence|]. rewrite Hd, Hd1, Hr1, not_elem_of_cons. tauto.
Qed.









Lemma remove_quietly_files w x p :
  stdout (remove_quietly w x) = stdout w /\
  protected (disk (remove_quietly w x)) = protected (disk w) /\
  (p ∈ files (disk (remove_quietly w x)) <->
   p ∈ files (disk w) /\ (p <> x \/ p ∈ protected (disk w))).
Proof.
  unfold remove_quietly, os_remove, unlink.
  destruct (decide (x ∈ files (disk w))) as [Hx|Hx];
    [destruct (decide (x ∈ protected (disk w))) as [Hr|Hr]|];
    simpl; (split; [done|]); (split; [done|]).
  - split; [|tauto]. intros Hp. split; [done|].
    destruct (decide (p = x)) as [->|]; tauto.
  - rewrite elem_of_difference, elem_of_singleton. split; [tauto|].
    intros [Hp [Hne|Hr']]; [done|]. split; [done|]. intros ->. done.
  - split; [|tauto]. intros Hp. split; [done|]. left. intros ->. done.
Qed.

Lemma remove_fold l w p :
  stdout (fold_left remove_quietly l w) = stdout w /\
  protected (disk (fold_left remove_quietly l w)) = protected (disk w) /\
  (p ∈ files (disk (fold_left remove_quietly l w)) <->
   p ∈ files (disk w) /\ (p ∉ l \/ p ∈ protected (disk w))).
Proof.
  revert w. induction l as [|x l IH]; intros w; simpl.
  - split; [done|]. split; [done|]. split; [|tauto].
    intros Hp. split; [done|]. left. apply not_elem_of_nil.
  - destruct (IH (remove_quietly w x)) as (Hs & Hr & Hd).
    destruct (remove_quietly_files w x p) as (Hs1 & Hr1 & Hd1).
    split; [congruence|]. split; [congruence|].
    rewrite Hd, Hd1, Hr1, not_elem_of_cons. tauto.
Qed.

(** ** Disk usage *)

Lemma insert_desc_perm {A} (lt : A -> A -> bool) x l : insert_desc lt x l ≡ₚ x :: l.
Proof.
  induction l as [|y l IH]; simpl; [done|].
  destruct (lt x y); [|done]. rewrite IH. apply Permutation_swap.
Qed.

Lemma sort_desc_perm {A} (lt : A -> A -> bool) l : sort_desc lt l ≡ₚ l.
Proof.
  induction l as [|x l IH]; simpl; [done|]. by rewrite insert_desc_perm, IH.
Qed.

Section sorted_by_key.
Context {A : Type} (lt : A -> A -> bool) (key : A -> Z).
Hypothesis lt_true : forall x y, lt x y = true -> key x <= key y.
Hypothesis lt_false : forall x y, lt x y = false -> key y <= key x.

Lemma insert_desc_sorted x l :
  StronglySorted (fun a b => key b <= key a) l ->
  StronglySorted (fun a b => key b <= key a) (insert_desc lt x l).
Proof.
  induction l as [|y l IH]; simpl; intros Hs.
  - constructor; [constructor|constructor].
  - apply StronglySorted_inv in Hs as [Hs Hy].
    destruct (lt x y) eqn:Hlt.
    + constructor; [by apply IH|].
      apply Forall_forall. intros z Hz.
      rewrite insert_desc_perm in Hz.
      apply elem_of_cons in Hz as [->|Hz]; [by apply lt_true|].
      rewrite Forall_forall in Hy. by apply Hy.
    + constructor; [by constructor|].
      constructor; [by apply lt_false|].
      apply Forall_forall. intros z Hz. rewrite Forall_forall in Hy.
      specialize (Hy z Hz). specialize (lt_false _ _ Hlt). lia.
Qed.

Lemma sort_desc_sorted l :
  StronglySorted (fun a b => key b <= key a) (sort_desc lt l).
Proof.
  induction l as [|x l IH]; simpl; [constructor|]. by apply insert_desc_sorted.
Qed.
End sorted_by_key.

Lemma tuple_lt_true a b : tuple_lt a b = true -> fst a <= fst b.
Proof. unfold tuple_lt. intros [H|[H _]%andb_prop]%orb_prop; lia. Qed.

Lemma tuple_lt_false a b : tuple_lt a b = false -> fst b <= fst a.
Proof. unfold tuple_lt. intros [H _]%orb_false_elim. lia. Qed.

Lemma size_lt_true a b : size_lt a b = true -> snd a <= snd b.
Proof. unfold size_lt. lia. Qed.

Lemma size_lt_false a b : size_lt a b = false -> snd b <= snd a.
Proof. unfold size_lt. lia. Qed.

Lemma sum_Z_app l1 l2 : sum_Z (l1 ++ l2) = sum_Z l1 + sum_Z l2.
Proof. induction l1 as [|x l1 IH]; simpl; [done|]. rewrite IH. lia. Qed.

Lemma sum_Z_perm l1 l2 : l1 ≡ₚ l2 -> sum_Z l1 = sum_Z l2.
Proof. induction 1; simpl; lia. Qed.

Section dict_sums.
Context {K : Type} `{EqDecision K}.

Lemma dd_add_sum (k : K) v d : sum_Z (map snd (dd_add k v d)) = sum_Z (map snd d) + v.
Proof.
  induction d as [|[k' x] d IH]; simpl; [lia|].
  destruct (decide (k = k')); simpl; [lia|]. rewrite IH. lia.
Qed.

Lemma dd_add_keys (k : K) v d : NoDup (map fst d) -> NoDup (map fst (dd_add k v d)).
Proof.
  induction d as [|[k' x] d IH]; simpl; intros Hnd.
  - apply NoDup_singleton.
  - apply NoDup_cons in Hnd as [Hk Hnd].
    destruct (decide (k = k')) as [->|Hne]; simpl.
    + by apply NoDup_cons.
    + apply NoDup_cons. split; [|by apply IH].
      intros Hin. apply Hk. clear -Hin Hne.
      induction d as [|[k2 x2] d IH]; simpl in *.
      * apply list_elem_of_singleton in Hin. congruence.
      * destruct (decide (k = k2)) as [->|Hne2]; simpl in *; [done|].
        apply elem_of_cons in Hin as [->|Hin]; [by left|right; by apply IH].
Qed.

Lemma dict_get_dd_add (k k0 : K) v d :
  dict_get k (dd_add k0 v d) =
  if decide (k = k0) then Some (default 0 (dict_get k d) + v) else dict_get k d.
Proof.
  induction d as [|[k' x] d IH]; simpl.
  - destruct (decide (k = k0)); [done|]. done.
  - destruct (decide (k0 = k')) as [->|Hne]; simpl.
    + destruct (decide (k = k')); [done|done].
    + destruct (decide (k = k')) as [->|Hne']; simpl.
      * by destruct (decide (k' = k0)); [congruence|].
      * apply IH.
Qed.

Lemma dict_get_elem {V} (k : K) (x : V) (d : dict K V) :
  NoDup (map fst d) -> (k, x) ∈ d -> dict_get k d = Some x.
Proof.
  induction d as [|[k' y] d IH]; simpl; intros Hnd Hin.
  - by apply elem_of_nil in Hin.
  - apply NoDup_cons in Hnd as [Hk Hnd].
    apply elem_of_cons in Hin as [[= -> ->]|Hin].
    + by destruct (decide (k' = k')).
    + destruct (decide (k = k')) as [->|]; [|by apply IH].
      exfalso. apply Hk. change k' with (fst (k', x)). by apply list_elem_of_fmap_2.
Qed.
End dict_sums.

Lemma usage_fold entries st :
  let st' := fold_left (quiet usage_step) entries st in
  acc_total_size st' = acc_total_size st + sum_Z (map fst (measured entries)) /\
  acc_file_sizes st' = acc_file_sizes st ++ measured entries /\
  sum_Z (map snd (acc_type_sizes st'))
    = sum_Z (map snd (acc_type_sizes st)) + sum_Z (map fst (measured entries)) /\
  (NoDup (map fst (acc_type_sizes st)) -> NoDup (map fst (acc_type_sizes st'))) /\
  (forall category,
     default 0 (dict_get category (acc_type_sizes st'))
     = default 0 (dict_get category (acc_type_sizes st))
       + sum_Z (category_sizes category entries)).
Proof.
  revert st. induction entries as [|e entries IH]; intros st; simpl.
  - rewrite app_nil_r. repeat split; try lia; try done.
  - destruct (IH (quiet usage_step st e)) as (H1 & H2 & H3 & H4 & H5).
    unfold quiet, usage_step, a_file in *.
    destruct (is_file (node_of e)) as [[|]|]; [|done..].
    destruct (stat_st_size (node_of e)) as [size|]; [|done].
    simpl in *. rewrite H1, H2, H3, dd_add_sum. repeat split; try lia.
    + by rewrite <- app_assoc.
    + intros Hnd. by apply H4, dd_add_keys.
    + intros category. rewrite H5, dict_get_dd_add.
      destruct (String.eqb_spec (_get_category (lower (suffix (name_of e)))) category)
        as [->|Hne].
      * destruct (decide (category = category)); [|done]. simpl. lia.
      * destruct (decide (category = _)) as [->|]; [done|]. lia.
Qed.

(** What [analyze_disk_usage] has returned when it returns. *)
Lemma analyze_returned F (mb gb : Z -> F) self fs directory top_n r :
  analyze_disk_usage F mb gb self fs directory top_n = Returned r ->
  r = usage_report_of F mb gb
        (fold_left (quiet usage_step) (walk_named self fs directory) (Usage 0 [] []))
        top_n.
Proof.
  unfold analyze_disk_usage, walk_named.
  destruct (rglob_root_named _ _) as [entries|e]; [|done].
  destruct (for_each usage_step entries (Usage 0 [] [])) as [st|e] eqn:Hst; [|done].
  apply for_each_quiet in Hst as ->. by intros [= <-].
Qed.

Lemma sorted_map {A B} (f : A -> B) (R : B -> B -> Prop) l :
  StronglySorted (fun a b => R (f a) (f b)) l -> StronglySorted R (map f l).
Proof.
  induction 1 as [|a l Hs IH Ha]; simpl; [constructor|].
  constructor; [exact IH|].
  apply Forall_forall. intros b Hb.
  apply list_elem_of_fmap in Hb as (b' & -> & Hb').
  rewrite Forall_forall in Ha. by apply Ha.
Qed.

Lemma slice_to_prefix {A} n (l : list A) :
  exists k, slice_to n l = firstn k l /\
    (0 <= n -> k = Z.to_nat n) /\ (n < 0 -> k = (length l - Z.to_nat (- n))%nat).
Proof.
  unfold slice_to. destruct (Z.leb_spec 0 n).
  - exists (Z.to_nat n). split; [done|]. split; [done|lia].
  - exists (length l - Z.to_nat (- n))%nat. split; [done|]. split; [lia|done].
Qed.

(** ** Organizing by type *)

Lemma append_inj_r s a b : s +:+ a = s +:+ b -> a = b.
Proof.
  induction s as [|c s IH]; [done|]. intros H. apply IH.
  change (String c (s +:+ a) = String c (s +:+ b)) in H. by injection H.
Qed.

Lemma joinpath_inj dir a b : joinpath dir a = joinpath dir b -> a = b.
Proof.
  unfold joinpath. destruct (String.eqb dir "."); [done|].
  destruct (String.eqb dir "/").
  - apply append_inj_r.
  - intros H%append_inj_r. by apply append_inj_r in H.
Qed.

Lemma category_of_nonempty name : String.eqb (category_of name) "" = false.
Proof.
  apply String.eqb_neq. unfold category_of. apply get_category_nonempty.
Qed.

Section dict_set_facts.
Context {K V : Type} `{EqDecision K}.

Lemma dict_set_fresh (k : K) (v : V) d :
  k ∉ map fst d -> dict_set k v d = d ++ [(k, v)].
Proof.
  induction d as [|[k' x] d IH]; simpl; [done|].
  rewrite not_elem_of_cons. intros [Hne Hk].
  destruct (decide (k = k')); [done|]. by rewrite IH.
Qed.

Lemma dict_set_elem (k k0 : K) (v v0 : V) d :
  (k, v) ∈ dict_set k0 v0 d -> (k, v) = (k0, v0) \/ (k, v) ∈ d.
Proof.
  induction d as [|[k' x] d IH]; simpl.
  - intros ->%list_elem_of_singleton. by left.
  - destruct (decide (k0 = k')) as [->|Hne].
    + intros [->|Hin]%elem_of_cons; [by left|right; by right].
    + intros [->|Hin]%elem_of_cons; [right; by left|].
      destruct (IH Hin); [by left|right; by right].
Qed.
End dict_set_facts.

Section organize.
Context {W : Type} (os : OS W) (source dest : string).

Lemma organize_loop_app dry_run pre post w moves :
  organize_loop os source dest dry_run (pre ++ post) w moves =
  match organize_loop os source dest dry_run pre w moves with
  | (w1, Ok moves1) => organize_loop os source dest dry_run post w1 moves1
  | (w1, Err e) => (w1, Err e)
  end.
Proof.
  revert w moves. induction pre as [|name pre IH]; intros w moves; simpl; [done|].
  destruct (os_is_file os (joinpath source name) w) as [[|]|e]; [|apply IH|done].
  destruct (String.eqb (category_of name) ""); [apply IH|].
  destruct dry_run; [apply IH|].
  destruct (os_makedirs os _ w) as [w1|e]; [|done].
  destruct (shutil_move os _ _ w1) as [w2|e]; [|done]. apply IH.
Qed.

Lemma organize_dry names w moves :
  NoDup names ->
  (forall name, name ∈ names -> exists b, os_is_file os (joinpath source name) w = Ok b) ->
  (forall name, name ∈ names -> joinpath source name ∉ map fst moves) ->
  organize_loop os source dest true names w moves =
  (w, Ok (moves ++
          map (fun name => (joinpath source name, destination dest name))
              (List.filter (fun name => path_is_file os (joinpath source name) w) names))).
Proof.
  revert moves. induction names as [|name names IH]; intros moves Hnd Hans Hfresh; simpl.
  - by rewrite app_nil_r.
  - apply NoDup_cons in Hnd as [Hname Hnd].
    assert (Hans' : forall name0, name0 ∈ names ->
              exists b, os_is_file os (joinpath source name0) w = Ok b).
    { intros name0 Hin. apply Hans. by right. }
    unfold path_is_file at 1.
    destruct (Hans name) as [[|] ->]; [by left| |].
    + rewrite category_of_nonempty.
      rewrite dict_set_fresh by (apply Hfresh; by left).
      rewrite IH; [by rewrite <- app_assoc|done|done|].
      intros name' Hin. rewrite map_app, elem_of_app. simpl.
      intros [Hm|Hm%list_elem_of_singleton].
      * apply (Hfresh name'); [by right|done].
      * apply joinpath_inj in Hm as ->. done.
    + apply IH; [done|done|]. intros name' Hin. apply Hfresh. by right.
Qed.

Lemma organize_dry_raise pre name post w moves e :
  (forall name0, name0 ∈ pre -> exists b, os_is_file os (joinpath source name0) w = Ok b) ->
  os_is_file os (joinpath source name) w = Err e ->
  organize_loop os source dest true (pre ++ name :: post) w moves = (w, Err e).
Proof.
  intros Hans He. revert moves. induction pre as [|name0 pre IH]; intros moves; simpl.
  - by rewrite He.
  - assert (Hans' : forall n, n ∈ pre ->
              exists b, os_is_file os (joinpath source n) w = Ok b).
    { intros n Hin. apply Hans. by right. }
    destruct (Hans name0) as [[|] ->]; [by left| |by apply IH].
    rewrite category_of_nonempty. by apply IH.
Qed.

Lemma organize_shape dry_run names w moves w' moves' src dst :
  organize_loop os source dest dry_run names w moves = (w', Ok moves') ->
  (src, dst) ∈ moves' ->
  (src, dst) ∈ moves \/
  exists name, name ∈ names /\ src = joinpath source name /\
    dst = destination dest name.
Proof.
  revert w moves. induction names as [|name names IH]; intros w moves; simpl.
  - intros [= <- <-] Hin. by left.
  - assert (Hrest : forall w1 moves1,
      organize_loop os source dest dry_run names w1 moves1 = (w', Ok moves') ->
      (src, dst) ∈ moves' ->
      (src, dst) ∈ moves1 \/
      exists name0, name0 ∈ name :: names /\ src = joinpath source name0 /\
        dst = destination dest name0).
    { intros w1 moves1 Hl Hin. destruct (IH _ _ Hl Hin) as [?|(n & ? & ?)]; [by left|].
      right. exists n. split; [by right|done]. }
    assert (Hset : forall w1,
      organize_loop os source dest dry_run names w1
        (dict_set (joinpath source name) (joinpath (joinpath dest (category_of name)) name)
           moves) = (w', Ok moves') ->
      (src, dst) ∈ moves' ->
      (src, dst) ∈ moves \/
      exists name0, name0 ∈ name :: names /\ src = joinpath source name0 /\
        dst = destination dest name0).
    { intros w1 Hl Hin. destruct (Hrest _ _ Hl Hin) as [Hs|?]; [|by right].
      apply dict_set_elem in Hs as [[= -> ->]|?]; [|by left].
      right. exists name. split; [by left|done]. }
    destruct (os_is_file os (joinpath source name) w) as [[|]|e0]; [|apply Hrest|done].
    destruct (String.eqb (category_of name) ""); [apply Hrest|].
    destruct dry_run; [apply Hset|].
    destruct (os_makedirs os _ w) as [w1|e]; [|done].
    destruct (shutil_move os _ _ w1) as [w2|e]; [|done]. apply Hset.
Qed.
End organize.

(** * Further properties *)

(** ** Hashing *)

(** X1.  [_hash_file] returns the MD5 digest of the whole content of the
    file for every positive [chunk_size], and raises what [open] raises.
    With [chunk_size = 0] the first read is empty, the loop never runs and
    the digest is that of the empty input. *)
Theorem hash_file_ignores_chunking n k :
  ((0 < k)%nat ->
   _hash_file n k = match open_rb n with
                    | Ok c => Ok (MD5.hexdigest c)
                    | Err e => Err e
                    end) /\
  _hash_file n 0 = match open_rb n with
                   | Ok _ => Ok (MD5.hexdigest [])
                   | Err e => Err e
                   end.
Proof.
  unfold _hash_file. split.
  - intros Hk. destruct (open_rb n) as [c|e]; [|done].
    by rewrite hash_loop_absorbs.
  - destruct (open_rb n) as [c|e]; [|done]. by rewrite hash_loop_zero.
Qed.

(** X1 at a five-byte file read three bytes at a time. *)
Lemma hash_file_ignores_chunking_witness :
  (0 < 3)%nat /\
  _hash_file (file "hello") 3 = Ok hello_digest /\
  _hash_file (file "hello") 0 = Ok "d41d8cd98f00b204e9800998ecf8427e".
Proof.
  assert (H : (0 < 3)%nat) by lia.
  destruct (hash_file_ignores_chunking (file "hello") 3) as [H1 H2].
  split; [exact H|]. rewrite (H1 H), H2. split; vm_compute; reflexivity.
Defined.

(** ** The keep policies *)

(** X2.  What the four policies keep: ['first'] the head of the group and
    ['last'] its last path, exactly when the group is not empty;
    ['shortest_path'] the first path of least length (every path before it
    is strictly longer, none after it is shorter) and ['longest_path'] the
    first path of greatest length: on a tie the earlier path is kept. *)
Theorem keep_policies_pick paths to_keep :
  (select_keep "first" paths = Returned to_keep <-> exists rest, paths = to_keep :: rest) /\
  (select_keep "last" paths = Returned to_keep <-> exists front, paths = front ++ [to_keep]) /\
  (select_keep "shortest_path" paths = Returned to_keep ->
   exists l1 l2, paths = l1 ++ to_keep :: l2 /\
     (forall p, p ∈ l1 -> String.length to_keep < String.length p)%nat /\
     (forall p, p ∈ l2 -> String.length to_keep <= String.length p)%nat) /\
  (select_keep "longest_path" paths = Returned to_keep ->
   exists l1 l2, paths = l1 ++ to_keep :: l2 /\
     (forall p, p ∈ l1 -> String.length p < String.length to_keep)%nat /\
     (forall p, p ∈ l2 -> String.length p <= String.length to_keep)%nat).
Proof.
  split; [|split; [|split]].
  - destruct paths as [|p rest]; simpl; split.
    + discriminate.
    + intros [rest' H]. discriminate H.
    + intros [= <-]. by exists rest.
    + intros [rest' [= -> ->]]. done.
  - unfold select_keep. simpl String.eqb. cbv iota. rewrite <- last_Some.
    destruct (last paths) as [q|]; split; intros H; try discriminate H; congruence.
  - intros H. destruct paths as [|p rest]; [discriminate H|].
    injection H as <-. apply min_from_spec.
  - intros H. destruct paths as [|p rest]; [discriminate H|].
    injection H as <-. apply max_from_spec.
Qed.

(** X2 at [hello_paths], keeping the longest path. *)
Lemma keep_policies_pick_witness :
  select_keep "longest_path" hello_paths = Returned "/data/sub/copy.txt" /\
  exists l1 l2, hello_paths = l1 ++ "/data/sub/copy.txt" :: l2 /\
    (forall p, p ∈ l1 -> String.length p < String.length "/data/sub/copy.txt")%nat /\
    (forall p, p ∈ l2 -> String.length p <= String.length "/data/sub/copy.txt")%nat.
Proof.
  assert (H : select_keep "longest_path" hello_paths = Returned "/data/sub/copy.txt")
    by (vm_compute; reflexivity).
  split; [exact H|].
  exact (proj2 (proj2 (proj2 (keep_policies_pick hello_paths "/data/sub/copy.txt"))) H).
Defined.

(** ** The scan *)

(** X3.  The scan misses no duplicate: two walked files with different
    paths for which [stat] reports the same size, at least [min_size], and
    whose contents can be read and have one digest, are in one returned
    group, under that digest. *)
Theorem duplicates_are_not_missed self fs directory min_size r p1 n1 p2 n2 size c1 c2 :
  find_duplicates self fs directory min_size = Returned r ->
  (p1, n1) ∈ walk self fs directory -> (p2, n2) ∈ walk self fs directory ->
  p1 <> p2 ->
  is_file n1 = Ok true -> is_file n2 = Ok true ->
  stat_st_size n1 = Ok size -> stat_st_size n2 = Ok size -> min_size <= size ->
  open_rb n1 = Ok c1 -> open_rb n2 = Ok c2 ->
  MD5.hexdigest c1 = MD5.hexdigest c2 ->
  exists paths, (MD5.hexdigest c1, paths) ∈ r /\ p1 ∈ paths /\ p2 ∈ paths.
Proof.
  intros Hr Hw1 Hw2 Hne Hf1 Hf2 Hs1 Hs2 Hm Hc1 Hc2 Hd.
  apply find_duplicates_returned in Hr as (_ & _ & ->).
  set (sm := size_map_of min_size (walk self fs directory)).
  pose proof (size_pass_complete min_size _ (p1, n1) size Hw1 Hf1 Hs1 Hm) as D1.
  pose proof (size_pass_complete min_size _ (p2, n2) size Hw2 Hf2 Hs2 Hm) as D2.
  destruct (dmem_unique_list _ _ _ _ (size_pass_keys _ _) D1 D2) as (files & Hb & He1 & He2).
  assert (Hlen : (2 <= length files)%nat).
  { apply (two_members_length files (p1, n1) (p2, n2)); [done..|congruence]. }
  assert (H1 : _hash_file n1 chunk_size_default = Ok (MD5.hexdigest c1)).
  { apply hash_file_ok. by exists c1. }
  assert (H2 : _hash_file n2 chunk_size_default = Ok (MD5.hexdigest c1)).
  { apply hash_file_ok. by exists c2. }
  pose proof (hash_pass_complete sm size files (p1, n1) _ Hb Hlen He1 H1) as M1.
  pose proof (hash_pass_complete sm size files (p2, n2) _ Hb Hlen He2 H2) as M2.
  destruct (dmem_unique_list _ _ _ _ (hash_pass_keys sm) M1 M2) as (paths & Hg & Hp1 & Hp2).
  exists paths. split; [|done].
  apply list_elem_of_In, filter_In. split; [by apply list_elem_of_In|].
  simpl. apply Nat.ltb_lt.
  pose proof (two_members_length paths p1 p2 Hp1 Hp2 Hne). lia.
Qed.

(** X3 at the two copies of [hello] in [sample_tree]. *)
Lemma duplicates_are_not_missed_witness :
  find_duplicates organizer (mount "/data" sample_tree) None 3 = Returned sample_result /\
  ("/data/a.txt", file "hello") ∈ walk organizer (mount "/data" sample_tree) None /\
  ("/data/sub/copy.txt", file "hello") ∈ walk organizer (mount "/data" sample_tree) None /\
  "/data/a.txt" <> "/data/sub/copy.txt" /\
  exists paths,
    (MD5.hexdigest (list_byte_of_string "hello"), paths) ∈ sample_result /\
    "/data/a.txt" ∈ paths /\ "/data/sub/copy.txt" ∈ paths.
Proof.
  assert (H1 : ("/data/a.txt", file "hello")
               ∈ walk organizer (mount "/data" sample_tree) None)
    by (vm_compute; repeat constructor).
  assert (H2 : ("/data/sub/copy.txt", file "hello")
               ∈ walk organizer (mount "/data" sample_tree) None)
    by (vm_compute; repeat constructor).
  assert (H3 : "/data/a.txt" <> "/data/sub/copy.txt") by (intros H; discriminate H).
  split; [exact sample_scan|]. split; [exact H1|]. split; [exact H2|].
  split; [exact H3|].
  apply (duplicates_are_not_missed organizer (mount "/data" sample_tree) None 3
           sample_result "/data/a.txt" (file "hello") "/data/sub/copy.txt" (file "hello")
           5 (list_byte_of_string "hello") (list_byte_of_string "hello")
           sample_scan H1 H2 H3);
    first [reflexivity | lia].
Defined.

(** X4.  In a tree whose walked paths are distinct, the returned mapping has
    one group per digest and no path is in two groups or twice in one. *)
Theorem groups_are_disjoint self fs directory min_size r :
  NoDup (map fst (walk self fs directory)) ->
  find_duplicates self fs directory min_size = Returned r ->
  NoDup (map fst r) /\ NoDup (listed r).
Proof.
  intros Hnd Hr. apply find_duplicates_returned in Hr as (_ & _ & ->). split.
  - apply NoDup_fst_filter, hash_pass_keys.
  - by apply scan_listed_NoDup.
Qed.

(** X4 at [sample_tree]. *)
Lemma groups_are_disjoint_witness :
  NoDup (map fst (walk organizer (mount "/data" sample_tree) None)) /\
  find_duplicates organizer (mount "/data" sample_tree) None 3 = Returned sample_result /\
  NoDup (map fst sample_result) /\ NoDup (listed sample_result).
Proof.
  split; [exact sample_walk_NoDup|]. split; [exact sample_scan|].
  exact (groups_are_disjoint organizer (mount "/data" sample_tree) None 3 sample_result
           sample_walk_NoDup sample_scan).
Defined.

(** ** The resolver *)





(** X7.  Scan, then resolve: on the result of [find_duplicates] over a tree
    whose walked paths are distinct, a real run with any of the four
    policies returns, and of every group it keeps one member, which is not
    among the returned paths and stays on disk if it was there. *)
Theorem scan_then_remove_keeps_a_copy self fs directory min_size r keep w :
  NoDup (map fst (walk self fs directory)) ->
  find_duplicates self fs directory min_size = Returned r ->
  keep ∈ policies ->
  exists w' out,
    remove_duplicates r keep false w = (w', Returned out) /\
    forall h paths, (h, paths) ∈ r ->
      exists to_keep, select_keep keep paths = Returned to_keep /\
        to_keep ∈ paths /\ (to_keep ∉ out) /\
        (to_keep ∈ files (disk w) -> to_keep ∈ files (disk w')).
Proof.
  intros Hnd Hr Hk.
  assert (Hdis : NoDup (listed r)).
  { destruct (find_duplicates_returned _ _ _ _ _ Hr) as (_ & _ & ->).
    by apply scan_listed_NoDup. }
  pose proof (fun h paths =>
    scan_groups_nonempty self fs directory min_size r h paths Hr) as Hne.
  destruct (would_delete_all_total keep r Hk) as [cands Hc].
  { apply Forall_forall. intros [h paths] Hin. simpl. by apply (Hne h). }
  pose proof (attempt_paths cands (disk w)) as Hm.
  exists (World (fst (attempt cands (disk w)))
            (stdout w ++ failure_lines (snd (attempt cands (disk w))))),
         (deleted_paths (snd (attempt cands (disk w)))).
  split.
  - unfold remove_duplicates. rewrite (groups_loop_real keep r w [] cands Hc).
    by destruct (attempt cands (disk w)).
  - intros h paths Hin.
    destruct (select_keep_total keep paths Hk (Hne h paths Hin)) as (k & Hsel & Hkin).
    pose proof (keep_not_among_candidates _ _ _ _ _ _ Hdis Hc Hin Hsel) as Hnot.
    exists k. split; [done|]. split; [done|]. split.
    + intros Hout%deleted_paths_sub. by rewrite Hm in Hout.
    + simpl. by apply survives_attempt.
Qed.

(** X7 at the scan of [sample_tree], resolved in [sample_world]. *)
Lemma scan_then_remove_keeps_a_copy_witness :
  NoDup (map fst (walk organizer (mount "/data" sample_tree) None)) /\
  find_duplicates organizer (mount "/data" sample_tree) None 3 = Returned sample_result /\
  "last" ∈ policies /\
  exists w' out,
    remove_duplicates sample_result "last" false sample_world = (w', Returned out) /\
    forall h paths, (h, paths) ∈ sample_result ->
      exists to_keep, select_keep "last" paths = Returned to_keep /\
        to_keep ∈ paths /\ (to_keep ∉ out) /\
        (to_keep ∈ files (disk sample_world) -> to_keep ∈ files (disk w')).
Proof.
  assert (H : "last" ∈ policies) by repeat constructor.
  split; [exact sample_walk_NoDup|]. split; [exact sample_scan|]. split; [exact H|].
  exact (scan_then_remove_keeps_a_copy organizer (mount "/data" sample_tree) None 3
           sample_result "last" sample_world sample_walk_NoDup sample_scan H).
Defined.

(** X8.  A group without paths stops the run with an exception, whatever
    [keep] is and in a dry run as in a real one: the groups before it have
    been handled (in a real run their files are gone and their failures
    printed), the groups after it are not looked at, and no list is
    returned. *)
Theorem empty_group_aborts_the_run before h after keep dry_run w w1 deleted1 :
  remove_duplicates before keep dry_run w = (w1, Returned deleted1) ->
  exists e, select_keep keep [] = Raised e /\
    remove_duplicates (before ++ (h, []) :: after) keep dry_run w = (w1, Raised e).
Proof.
  intros Hb. destruct (select_keep_empty keep) as [e He]. exists e. split; [done|].
  unfold remove_duplicates in *. rewrite groups_loop_app, Hb. simpl. by rewrite He.
Qed.

(** X8 with an empty group after the first group of [sample_groups]. *)
Lemma empty_group_aborts_the_run_witness :
  remove_duplicates [(hello_digest, hello_paths)] "longest_path" false sample_world
    = (world_after_hello, Returned ["/data/a.txt"]) /\
  exists e, select_keep "longest_path" [] = Raised e /\
    remove_duplicates ([(hello_digest, hello_paths)] ++ (world_digest, []) ::
                       [(world_digest, world_paths)])
      "longest_path" false sample_world = (world_after_hello, Raised e).
Proof.
  assert (H : remove_duplicates [(hello_digest, hello_paths)] "longest_path" false
                sample_world = (world_after_hello, Returned ["/data/a.txt"]))
    by (vm_compute; reflexivity).
  split; [exact H|].
  exact (empty_group_aborts_the_run [(hello_digest, hello_paths)] world_digest
           [(world_digest, world_paths)] "longest_path" false sample_world
           world_after_hello ["/data/a.txt"] H).
Defined.

(** ** Categories *)

(** X9.  [_get_category] tells the table apart: the answer is a category
    exactly when the extension is in the list of that category, it is
    ['other'] exactly when the extension is in no list, and it is never the
    empty string (so the test [if category:] of [organize_by_type] never
    fails).  The comparison is exact: no case folding, and the dot is part
    of the extension. *)
Theorem get_category_meaning extension :
  (forall category extensions, (category, extensions) ∈ FILE_CATEGORIES ->
     (_get_category extension = category <-> extension ∈ extensions)) /\
  (_get_category extension = "other" <-> extension ∉ listed FILE_CATEGORIES) /\
  _get_category extension <> "".
Proof.
  split; [|split; [|apply get_category_nonempty]]; unfold _get_category.
  - intros c exts Hin. split.
    + intros Hc.
      destruct (category_in_origin FILE_CATEGORIES extension) as [Ho|(exts' & Hin' & Hx)].
      * exfalso. apply other_is_no_key. rewrite <- Ho, Hc. by apply key_of_item with exts.
      * rewrite Hc in Hin'.
        by rewrite (NoDup_fst_inj _ _ _ _ categories_keys Hin Hin').
    + intros Hx. by apply (category_in_hit _ _ exts _ categories_disjoint).
  - split.
    + intros Ho Hl.
      assert (exists c exts, (c, exts) ∈ FILE_CATEGORIES /\ extension ∈ exts)
        as (c & exts & Hin & Hx).
      { clear Ho. induction FILE_CATEGORIES as [|[c e] t IH]; simpl in Hl.
        - by apply elem_of_nil in Hl.
        - apply elem_of_app in Hl as [Hl|Hl].
          + exists c, e. split; [by left|done].
          + destruct (IH Hl) as (c' & e' & ? & ?). exists c', e'. split; [by right|done]. }
      rewrite (category_in_hit _ _ _ _ categories_disjoint Hin Hx) in Ho.
      apply other_is_no_key. rewrite <- Ho. by apply key_of_item with exts.
    + apply category_in_miss.
Qed.

(** X9 at the extension [.py] and the category ['code']. *)
Lemma get_category_meaning_witness :
  ("code", [".py"; ".js"; ".java"; ".cpp"; ".c"; ".h"; ".cs"; ".php"; ".rb"; ".go"; ".rs"])
    ∈ FILE_CATEGORIES /\
  (_get_category ".py" = "code" <->
   ".py" ∈ [".py"; ".js"; ".java"; ".cpp"; ".c"; ".h"; ".cs"; ".php"; ".rb"; ".go"; ".rs"]).
Proof.
  assert (H : ("code", [".py"; ".js"; ".java"; ".cpp"; ".c"; ".h"; ".cs"; ".php";
                        ".rb"; ".go"; ".rs"]) ∈ FILE_CATEGORIES)
    by (unfold FILE_CATEGORIES; repeat constructor).
  split; [exact H|].
  exact (proj1 (get_category_meaning ".py") "code" _ H).
Defined.

(** ** Empty directories *)

(** X10.  When [find_empty_dirs] returns, it lists exactly the walked paths
    that are a directory, or a link to one, whose listing succeeds and has
    no entry; a directory that cannot be listed is left out.  It returns
    unless the status of the root or of a walked entry cannot be read:
    [is_dir()] stands outside the [try], and the first entry for which it
    raises ends the call with that exception. *)
Theorem empty_dirs_list_nothing self fs directory :
  (forall l p, find_empty_dirs self fs directory = Returned l ->
     (p ∈ l <->
      exists n, (p, n) ∈ walk self fs directory /\
        follow n = Some (Directory (Some [])))) /\
  (stat_refused (fs (scan_root self directory)) = false ->
   first_raise is_dir (walk self fs directory) = None ->
   exists l, find_empty_dirs self fs directory = Returned l) /\
  (stat_refused (fs (scan_root self directory)) = true ->
   find_empty_dirs self fs directory = Raised (Os PermissionError)) /\
  (forall e, first_raise is_dir (walk self fs directory) = Some e ->
     find_empty_dirs self fs directory = Raised (Os e)).
Proof.
  rewrite find_empty_dirs_spec. split; [|split; [|split]].
  - intros l p Hl.
    destruct (stat_refused _); [done|].
    destruct (first_raise is_dir _); [done|]. injection Hl as <-. split.
    + intros Hp. apply list_elem_of_fmap in Hp as ([q n] & -> & Hin).
      apply list_elem_of_In, filter_In in Hin as [Hin He]. apply list_elem_of_In in Hin.
      exists n. split; [done|]. simpl in He. unfold lists_nothing in He.
      by destruct (follow n) as [[| [[|c children]|] | | | |]|].
    + intros (n & Hin & Hf). change p with (fst (p, n)). apply list_elem_of_fmap_2.
      apply list_elem_of_In, filter_In. split; [by apply list_elem_of_In|].
      simpl. unfold lists_nothing. by rewrite Hf.
  - intros -> ->. by eexists.
  - by intros ->.
  - intros e He. destruct (stat_refused _) eqn:Href; [|by rewrite He].
    exfalso. unfold walk in He. rewrite rglob_root_spec, Href in He. discriminate He.
Qed.

(** X10 at [temp_tree], where [closed] and [vault] cannot be listed, and at
    [listonly_tree], where the status of [inbox/mail.txt] cannot be read. *)
Lemma empty_dirs_list_nothing_witness :
  find_empty_dirs organizer (mount "/data" temp_tree) None
    = Returned ["/data/cache.tmp"; "/data/old/empty"] /\
  (exists n, ("/data/old/empty", n) ∈ walk organizer (mount "/data" temp_tree) None /\
     follow n = Some (Directory (Some []))) /\
  first_raise is_dir (walk organizer (mount "/data" listonly_tree) None)
    = Some PermissionError /\
  find_empty_dirs organizer (mount "/data" listonly_tree) None
    = Raised (Os PermissionError).
Proof.
  assert (H1 : find_empty_dirs organizer (mount "/data" temp_tree) None
               = Returned ["/data/cache.tmp"; "/data/old/empty"]) by reflexivity.
  assert (H2 : first_raise is_dir (walk organizer (mount "/data" listonly_tree) None)
               = Some PermissionError) by reflexivity.
  split; [exact H1|]. split.
  { apply (proj1 (empty_dirs_list_nothing organizer (mount "/data" temp_tree) None)
             _ "/data/old/empty" H1).
    right. left. }
  split; [exact H2|].
  exact (proj2 (proj2 (proj2 (empty_dirs_list_nothing organizer
           (mount "/data" listonly_tree) None))) PermissionError H2).
Defined.

(** X11.  [remove_empty_dirs] raises what [find_empty_dirs] raises, before
    anything is removed.  Otherwise it returns the list of
    [find_empty_dirs] in a dry run and in a real run alike, also the
    directories that [os.rmdir] refused, whose errors are swallowed.  A dry
    run changes nothing.  A real run removes the listed directories that
    exist and that the system lets go, and nothing else. *)
Theorem remove_empty_dirs_effect self fs directory d :
  (forall e dry_run, find_empty_dirs self fs directory = Raised e ->
     remove_empty_dirs self fs directory dry_run d = (d, Raised e)) /\
  (forall out, find_empty_dirs self fs directory = Returned out ->
     remove_empty_dirs self fs directory true d = (d, Returned out) /\
     exists d',
       remove_empty_dirs self fs directory false d = (d', Returned out) /\
       refusing d' = refusing d /\
       forall p, p ∈ dirs d' <-> p ∈ dirs d /\ (p ∉ out \/ p ∈ refusing d)).
Proof.
  unfold remove_empty_dirs. split.
  - by intros e dry_run ->.
  - intros out ->. split; [done|]. eexists. split; [done|].
    split; [exact (proj1 (rmdir_fold _ d ""))|].
    intros p. exact (proj2 (rmdir_fold _ d p)).
Qed.

(** X11 at [temp_tree], where [old/empty] cannot be removed. *)
Lemma remove_empty_dirs_effect_witness :
  find_empty_dirs organizer (mount "/data" temp_tree) None
    = Returned ["/data/cache.tmp"; "/data/old/empty"] /\
  remove_empty_dirs organizer (mount "/data" temp_tree) None true
      (Dirs {[ "/data/old"; "/data/old/empty"; "/data/cache.tmp" ]} {[ "/data/old/empty" ]})
    = (Dirs {[ "/data/old"; "/data/old/empty"; "/data/cache.tmp" ]} {[ "/data/old/empty" ]},
       Returned ["/data/cache.tmp"; "/data/old/empty"]) /\
  remove_empty_dirs organizer (mount "/data" temp_tree) None false
      (Dirs {[ "/data/old"; "/data/old/empty"; "/data/cache.tmp" ]} {[ "/data/old/empty" ]})
    = (Dirs {[ "/data/old"; "/data/old/empty" ]} {[ "/data/old/empty" ]},
       Returned ["/data/cache.tmp"; "/data/old/empty"]).
Proof.
  assert (H : find_empty_dirs organizer (mount "/data" temp_tree) None
              = Returned ["/data/cache.tmp"; "/data/old/empty"]) by reflexivity.
  split; [exact H|]. split; [|reflexivity].
  exact (proj1 (proj2 (remove_empty_dirs_effect organizer (mount "/data" temp_tree) None
                         (Dirs {[ "/data/old"; "/data/old/empty"; "/data/cache.tmp" ]}
                               {[ "/data/old/empty" ]})) _ H)).
Defined.

(** ** Temporary files *)



(** X13.  [remove_temp_files] raises what [find_temp_files] raises, before
    anything is removed.  Otherwise it returns the list of
    [find_temp_files] in a dry run and in a real run alike, also the files
    that [os.remove] refused, whose errors are swallowed, and prints
    nothing.  A dry run changes nothing.  A real run removes the listed
    files that exist and are not protected, and nothing else. *)
Theorem remove_temp_files_effect self fs directory w :
  (forall e dry_run, find_temp_files self fs directory = Raised e ->
     remove_temp_files self fs directory dry_run w = (w, Raised e)) /\
  (forall out, find_temp_files self fs directory = Returned out ->
     remove_temp_files self fs directory true w = (w, Returned out) /\
     exists w',
       remove_temp_files self fs directory false w = (w', Returned out) /\
       stdout w' = stdout w /\
       protected (disk w') = protected (disk w) /\
       forall p, p ∈ files (disk w') <->
         p ∈ files (disk w) /\ (p ∉ out \/ p ∈ protected (disk w))).
Proof.
  unfold remove_temp_files. split.
  - by intros e dry_run ->.
  - intros out ->. split; [done|]. eexists. split; [done|].
    split; [exact (proj1 (remove_fold _ w ""))|].
    split; [exact (proj1 (proj2 (remove_fold _ w "")))|].
    intros p. exact (proj2 (proj2 (remove_fold _ w p))).
Qed.

(** X13 at [temp_tree], where [old/a.bak] is protected and the other files
    but [~lock.tmp] are gone by the time of the removal; [~lock.tmp] matches
    two patterns and is listed twice. *)
Lemma remove_temp_files_effect_witness :
  find_temp_files organizer (mount "/data" temp_tree) None
    = Returned ["/data/~lock.tmp"; "/data/~lock.tmp"; "/data/old/a.bak";
                "/data/old/Thumbs.db"; "/data/vault/Thumbs.db"] /\
  remove_temp_files organizer (mount "/data" temp_tree) None true
      (World (FS {[ "/data/~lock.tmp"; "/data/notes.txt"; "/data/old/a.bak" ]}
                 {[ "/data/old/a.bak" ]}) [])
    = (World (FS {[ "/data/~lock.tmp"; "/data/notes.txt"; "/data/old/a.bak" ]}
                 {[ "/data/old/a.bak" ]}) [],
       Returned ["/data/~lock.tmp"; "/data/~lock.tmp"; "/data/old/a.bak";
                 "/data/old/Thumbs.db"; "/data/vault/Thumbs.db"]) /\
  remove_temp_files organizer (mount "/data" temp_tree) None false
      (World (FS {[ "/data/~lock.tmp"; "/data/notes.txt"; "/data/old/a.bak" ]}
                 {[ "/data/old/a.bak" ]}) [])
    = (World (FS {[ "/data/notes.txt"; "/data/old/a.bak" ]} {[ "/data/old/a.bak" ]}) [],
       Returned ["/data/~lock.tmp"; "/data/~lock.tmp"; "/data/old/a.bak";
                 "/data/old/Thumbs.db"; "/data/vault/Thumbs.db"]).
Proof.
  assert (H : find_temp_files organizer (mount "/data" temp_tree) None
              = Returned ["/data/~lock.tmp"; "/data/~lock.tmp"; "/data/old/a.bak";
                          "/data/old/Thumbs.db"; "/data/vault/Thumbs.db"])
    by reflexivity.
  split; [exact H|]. split; [|reflexivity].
  exact (proj1 (proj2 (remove_temp_files_effect organizer (mount "/data" temp_tree) None
                         (World (FS {[ "/data/~lock.tmp"; "/data/notes.txt";
                                       "/data/old/a.bak" ]}
                                    {[ "/data/old/a.bak" ]}) [])) _ H)).
Defined.

(** ** Disk usage *)

(** X14.  The totals of [analyze_disk_usage] add up: [total_size] is the sum
    of the sizes of the walked files whose [stat] succeeds, the sizes of the
    breakdown sum to [total_size], each category appears once, with the sum
    of the sizes of its files, and the breakdown is in descending order of
    size. *)
Theorem usage_totals_add_up F (mb gb : Z -> F) self fs directory top_n r :
  analyze_disk_usage F mb gb self fs directory top_n = Returned r ->
  total_size r = sum_Z (map fst (measured (walk_named self fs directory))) /\
  sum_Z (map (fun item => fst (snd item)) (type_breakdown r)) = total_size r /\
  NoDup (map fst (type_breakdown r)) /\
  StronglySorted (fun a b => fst (snd b) <= fst (snd a)) (type_breakdown r) /\
  forall category size f, (category, (size, f)) ∈ type_breakdown r ->
    size = sum_Z (category_sizes category (walk_named self fs directory)).
Proof.
  intros ->%analyze_returned. unfold usage_report_of. simpl.
  destruct (usage_fold (walk_named self fs directory) (Usage 0 [] []))
    as (H1 & H2 & H3 & H4 & H5). simpl in *.
  set (st := fold_left (quiet usage_step) (walk_named self fs directory)
               (Usage 0 [] [])) in *.
  pose proof (sort_desc_perm size_lt (acc_type_sizes st)) as Hperm.
  assert (Hkeys : NoDup (map fst (sort_desc size_lt (acc_type_sizes st)))).
  { rewrite Hperm. apply H4. constructor. }
  split; [lia|]. split; [|split; [|split]].
  - rewrite map_map. simpl.
    rewrite (sum_Z_perm _ (map snd (acc_type_sizes st))); [lia|].
    by apply Permutation_map.
  - by rewrite map_map.
  - apply sorted_map. simpl.
    apply (sort_desc_sorted size_lt snd size_lt_true size_lt_false).
  - intros category size f Hin.
    apply list_elem_of_fmap in Hin as ([c s] & [= -> -> _] & Hin).
    rewrite Hperm in Hin.
    assert (Hget : dict_get c (acc_type_sizes st) = Some s).
    { apply dict_get_elem; [|done]. apply H4. constructor. }
    specialize (H5 c). rewrite Hget in H5. simpl in H5. lia.
Qed.

(** X14 at [usage_tree], with whole megabytes and gigabytes for the rounded
    figures. *)
Lemma usage_totals_add_up_witness :
  analyze_disk_usage Z (fun size => size / 1048576) (fun size => size / 1073741824)
      organizer (mount "/data" usage_tree) None 2
    = Returned (Report Z 8500 0
        [("documents", (3500, 0)); ("images", (3000, 0)); ("code", (1200, 0));
         ("other", (800, 0))]
        [("/data/report.PDF", 3000, 0); ("/data/photo.jpeg", 3000, 0)]) /\
  8500 = sum_Z (map fst (measured (walk_named organizer (mount "/data" usage_tree) None))) /\
  3500 + (3000 + (1200 + (800 + 0))) = 8500.
Proof.
  assert (H : analyze_disk_usage Z (fun size => size / 1048576)
                (fun size => size / 1073741824) organizer (mount "/data" usage_tree) None 2
              = Returned (Report Z 8500 0
                  [("documents", (3500, 0)); ("images", (3000, 0)); ("code", (1200, 0));
                   ("other", (800, 0))]
                  [("/data/report.PDF", 3000, 0); ("/data/photo.jpeg", 3000, 0)]))
    by (vm_compute; reflexivity).
  split; [exact H|].
  destruct (usage_totals_add_up Z _ _ organizer (mount "/data" usage_tree) None 2 _ H)
    as (H1 & H2 & _).
  split; [exact H1|exact H2].
Defined.

(** X15.  [largest_files] is the head of the ranking of all measured files
    by descending size (on equal sizes by descending path): together with
    the files left out it is a rearrangement of all measured files in
    descending order of size.  It has [top_n] entries, or all files when
    there are fewer; a negative [top_n] drops that many files from the end
    of the ranking instead. *)
Theorem largest_files_lead_the_ranking F (mb gb : Z -> F) self fs directory top_n r :
  analyze_disk_usage F mb gb self fs directory top_n = Returned r ->
  exists rest,
    map (fun item : string * Z * F => (snd (fst item), fst (fst item))) (largest_files r)
      ++ rest ≡ₚ measured (walk_named self fs directory) /\
    StronglySorted (fun a b : Z * string => fst b <= fst a)
      (map (fun item : string * Z * F => (snd (fst item), fst (fst item)))
           (largest_files r) ++ rest) /\
    (0 <= top_n ->
     length (largest_files r)
     = Nat.min (Z.to_nat top_n) (length (measured (walk_named self fs directory)))) /\
    (top_n < 0 ->
     length (largest_files r)
     = (length (measured (walk_named self fs directory)) - Z.to_nat (- top_n))%nat).
Proof.
  intros ->%analyze_returned. unfold usage_report_of. simpl.
  destruct (usage_fold (walk_named self fs directory) (Usage 0 [] []))
    as (_ & H2 & _). simpl in H2. rewrite H2.
  set (all := measured (walk_named self fs directory)).
  destruct (slice_to_prefix top_n (sort_desc tuple_lt all)) as (k & -> & Hpos & Hneg).
  exists (skipn k (sort_desc tuple_lt all)).
  assert (Hback : map (fun item : string * Z * F => (snd (fst item), fst (fst item)))
            (map (fun item : Z * string => (snd item, fst item, mb (fst item)))
               (firstn k (sort_desc tuple_lt all)))
          = firstn k (sort_desc tuple_lt all)).
  { rewrite map_map. simpl. induction (firstn k (sort_desc tuple_lt all)) as [|[s p] l IH];
      simpl; [done|]. by rewrite IH. }
  assert (Hlen : length (sort_desc tuple_lt all) = length all).
  { apply Permutation_length, sort_desc_perm. }
  rewrite Hback, firstn_skipn. split; [apply sort_desc_perm|]. split.
  - apply (sort_desc_sorted tuple_lt fst tuple_lt_true tuple_lt_false).
  - rewrite length_map, length_firstn, Hlen. split; intros H.
    + by rewrite (Hpos H).
    + rewrite (Hneg H), Hlen. lia.
Qed.

(** X15 at [usage_tree] with [top_n = -1]: of the five measured files the
    smallest is dropped. *)
Lemma largest_files_lead_the_ranking_witness :
  analyze_disk_usage Z (fun size => size / 1048576) (fun size => size / 1073741824)
      organizer (mount "/data" usage_tree) None (-1)
    = Returned (Report Z 8500 0
        [("documents", (3500, 0)); ("images", (3000, 0)); ("code", (1200, 0));
         ("other", (800, 0))]
        [("/data/report.PDF", 3000, 0); ("/data/photo.jpeg", 3000, 0);
         ("/data/src/main.py", 1200, 0); ("/data/src/Makefile", 800, 0)]) /\
  exists rest,
    [(3000, "/data/report.PDF"); (3000, "/data/photo.jpeg");
     (1200, "/data/src/main.py"); (800, "/data/src/Makefile")] ++ rest
      ≡ₚ measured (walk_named organizer (mount "/data" usage_tree) None).
Proof.
  assert (H : analyze_disk_usage Z (fun size => size / 1048576)
                (fun size => size / 1073741824) organizer (mount "/data" usage_tree)
                None (-1)
              = Returned (Report Z 8500 0
                  [("documents", (3500, 0)); ("images", (3000, 0)); ("code", (1200, 0));
                   ("other", (800, 0))]
                  [("/data/report.PDF", 3000, 0); ("/data/photo.jpeg", 3000, 0);
                   ("/data/src/main.py", 1200, 0); ("/data/src/Makefile", 800, 0)]))
    by (vm_compute; reflexivity).
  split; [exact H|].
  destruct (largest_files_lead_the_ranking Z _ _ organizer (mount "/data" usage_tree)
              None (-1) _ H) as (rest & Hperm & _).
  exists rest. exact Hperm.
Defined.

(** ** Organizing by type *)

(** X16.  A dry run of [organize_by_type] over a listing of distinct names
    changes nothing.  When [is_file()] answers for every listed name, it
    plans one move for every listed name that is a regular file, in the
    order of the listing: from [source/name] to [dest/category/name], the
    category being that of the lower-cased suffix; subdirectories are not
    entered.  [is_file()] stands outside any [try]: the first listed name
    for which it raises ends the call with that exception and without a
    mapping. *)
Theorem organize_dry_run_plans_every_file {W} (os : OS W) self source_dir dest_dir w names :
  os_listdir os (scan_root self source_dir) w = Ok names ->
  NoDup names ->
  ((forall name, name ∈ names ->
      exists b, os_is_file os (joinpath (scan_root self source_dir) name) w = Ok b) ->
   organize_by_type os self source_dir dest_dir true w =
   (w, Ok (map (fun name =>
                  (joinpath (scan_root self source_dir) name,
                   destination (organize_dest (scan_root self source_dir) dest_dir) name))
               (List.filter
                  (fun name => path_is_file os (joinpath (scan_root self source_dir) name) w)
                  names)))) /\
  (forall pre name post e, names = pre ++ name :: post ->
     (forall name0, name0 ∈ pre ->
        exists b, os_is_file os (joinpath (scan_root self source_dir) name0) w = Ok b) ->
     os_is_file os (joinpath (scan_root self source_dir) name) w = Err e ->
     organize_by_type os self source_dir dest_dir true w = (w, Err e)).
Proof.
  intros Hl Hnd. unfold organize_by_type. rewrite Hl. split.
  - intros Hans. rewrite organize_dry; [done|done|done|].
    intros name _. simpl. apply not_elem_of_nil.
  - intros pre name post e -> Hans He. by apply organize_dry_raise.
Qed.

(** X16 at a directory with three files and a subdirectory. *)
Lemma organize_dry_run_plans_every_file_witness :
  os_listdir (flat_os desk_names []) "/data" desk_files = Ok desk_names /\
  NoDup desk_names /\
  organize_by_type (flat_os desk_names []) organizer None None true desk_files =
  (desk_files, Ok [ ("/data/cv.PDF", "/data/organized/documents/cv.PDF");
                    ("/data/todo", "/data/organized/other/todo");
                    ("/data/song.mp3", "/data/organized/audio/song.mp3") ]).
Proof.
  assert (H1 : os_listdir (flat_os desk_names []) (scan_root organizer None) desk_files
               = Ok desk_names) by reflexivity.
  assert (H2 : NoDup desk_names) by (apply (bool_decide_unpack _); vm_compute; exact I).
  split; [exact H1|]. split; [exact H2|].
  rewrite (proj1 (organize_dry_run_plans_every_file (flat_os desk_names []) organizer
                    None None desk_files desk_names H1 H2)).
  - reflexivity.
  - intros name _. by eexists.
Defined.

(** X17.  Whatever the mode, every entry of the mapping that
    [organize_by_type] returns sends a listed name of the source directory
    to the same name in a folder of the destination directory that is
    called after a category of [FILE_CATEGORIES] or ['other']. *)
Theorem organize_moves_into_category_folders {W} (os : OS W) self source_dir dest_dir
    dry_run w w' moves src dst :
  organize_by_type os self source_dir dest_dir dry_run w = (w', Ok moves) ->
  (src, dst) ∈ moves ->
  exists names name category,
    os_listdir os (scan_root self source_dir) w = Ok names /\ name ∈ names /\
    src = joinpath (scan_root self source_dir) name /\
    dst = joinpath (joinpath (organize_dest (scan_root self source_dir) dest_dir) category)
            name /\
    (category = "other" \/ category ∈ map fst FILE_CATEGORIES).
Proof.
  unfold organize_by_type. intros Hrun Hin.
  destruct (os_listdir os (scan_root self source_dir) w) as [names|e]; [|discriminate Hrun].
  destruct (organize_shape os _ _ _ _ _ _ _ _ _ _ Hrun Hin) as [Hnil|(name & Hn & -> & ->)].
  { by apply elem_of_nil in Hnil. }
  exists names, name, (category_of name). split; [done|]. split; [done|].
  split; [done|]. split; [done|]. unfold category_of, _get_category.
  destruct (category_in_origin FILE_CATEGORIES (lower (suffix name)))
    as [Ho|(exts & Hc & _)]; [by left|right].
  by apply key_of_item with exts.
Qed.

(** X17 at a real run over the same directory. *)
Lemma organize_moves_into_category_folders_witness :
  organize_by_type (flat_os desk_names []) organizer None None false desk_files =
  (desk_files_organized,
   Ok [ ("/data/cv.PDF", "/data/organized/documents/cv.PDF");
        ("/data/todo", "/data/organized/other/todo");
        ("/data/song.mp3", "/data/organized/audio/song.mp3") ]) /\
  exists names name category,
    os_listdir (flat_os desk_names []) (scan_root organizer None) desk_files = Ok names /\
    name ∈ names /\
    "/data/todo" = joinpath (scan_root organizer None) name /\
    "/data/organized/other/todo"
      = joinpath (joinpath (organize_dest (scan_root organizer None) None) category) name /\
    (category = "other" \/ category ∈ map fst FILE_CATEGORIES).
Proof.
  assert (H : organize_by_type (flat_os desk_names []) organizer None None false desk_files =
    (desk_files_organized,
     Ok [ ("/data/cv.PDF", "/data/organized/documents/cv.PDF");
          ("/data/todo", "/data/organized/other/todo");
          ("/data/song.mp3", "/data/organized/audio/song.mp3") ]))
    by reflexivity.
  split; [exact H|].
  apply (organize_moves_into_category_folders (flat_os desk_names []) organizer None None
           false desk_files _ _ "/data/todo" "/data/organized/other/todo" H).
  repeat constructor.
Defined.

(** X18.  A real run of [organize_by_type] does not catch the error of
    [mkdir] or of [shutil.move]: the first file for which one of them fails
    ends the call with that error.  The files handled before it stay moved,
    the files after it are not touched, and the mapping of the moves made
    so far is not returned. *)
Theorem organize_stops_at_first_failure {W} (os : OS W) self source_dir dest_dir
    w pre name post w1 moves1 :
  os_listdir os (scan_root self source_dir) w = Ok (pre ++ name :: post) ->
  organize_loop os (scan_root self source_dir)
    (organize_dest (scan_root self source_dir) dest_dir) false pre w [] = (w1, Ok moves1) ->
  os_is_file os (joinpath (scan_root self source_dir) name) w1 = Ok true ->
  (forall e,
     os_makedirs os (joinpath (organize_dest (scan_root self source_dir) dest_dir)
                       (category_of name)) w1 = Err e ->
     organize_by_type os self source_dir dest_dir false w = (w1, Err e)) /\
  (forall w2 e,
     os_makedirs os (joinpath (organize_dest (scan_root self source_dir) dest_dir)
                       (category_of name)) w1 = Ok w2 ->
     shutil_move os (joinpath (scan_root self source_dir) name)
       (destination (organize_dest (scan_root self source_dir) dest_dir) name) w2 = Err e ->
     organize_by_type os self source_dir dest_dir false w = (w2, Err e)).
Proof.
  intros Hl Hpre Hfile. unfold organize_by_type. rewrite Hl.
  rewrite organize_loop_app, Hpre. simpl.
  rewrite Hfile, category_of_nonempty. split.
  - intros e Hmk. by rewrite Hmk.
  - intros w2 e Hmk Hmv. rewrite Hmk. unfold destination in Hmv. by rewrite Hmv.
Qed.

(** X18 at the same directory when the place of [song.mp3] is locked: the
    two files before it have been moved. *)
Lemma organize_stops_at_first_failure_witness :
  os_listdir (flat_os desk_names ["/data/organized/audio/song.mp3"])
    (scan_root organizer None) desk_files = Ok (["cv.PDF"; "todo"] ++ "song.mp3" :: ["sub"]) /\
  organize_by_type (flat_os desk_names ["/data/organized/audio/song.mp3"])
    organizer None None false desk_files = (desk_files_after_two, Err PermissionError).
Proof.
  assert (H1 : os_listdir (flat_os desk_names ["/data/organized/audio/song.mp3"])
                 (scan_root organizer None) desk_files
               = Ok (["cv.PDF"; "todo"] ++ "song.mp3" :: ["sub"])) by reflexivity.
  assert (H2 : organize_loop (flat_os desk_names ["/data/organized/audio/song.mp3"])
                 (scan_root organizer None)
                 (organize_dest (scan_root organizer None) None) false
                 ["cv.PDF"; "todo"] desk_files []
               = (desk_files_after_two,
                  Ok [ ("/data/cv.PDF", "/data/organized/documents/cv.PDF");
                       ("/data/todo", "/data/organized/other/todo") ]))
    by reflexivity.
  assert (H3 : os_is_file (flat_os desk_names ["/data/organized/audio/song.mp3"])
                 (joinpath (scan_root organizer None) "song.mp3") desk_files_after_two
               = Ok true) by reflexivity.
  split; [exact H1|].
  apply (proj2 (organize_stops_at_first_failure
                  (flat_os desk_names ["/data/organized/audio/song.mp3"])
                  organizer None None desk_files ["cv.PDF"; "todo"] "song.mp3" ["sub"]
                  desk_files_after_two _ H1 H2 H3) desk_files_after_two PermissionError);
    reflexivity.
Defined.
